(** * Modal provider: a shallow embedding of [packages/modal/src/index.ts]

    The provider is a thin orchestration layer over the Modal SDK.  The pure
    parts (runtime detection, command composition) are embedded as functions
    on strings; the asynchronous operations are embedded in a state and
    exception monad over an abstract remote service, with every remote call
    recorded in a trace.

    Strings are [string]: a character is read as one code unit below 256. *)

From Stdlib Require Import String Ascii List ZArith NArith Bool Lia DecimalString.
From Stdlib Require Import DecimalN Sorted.
Import ListNotations.
Local Open Scope string_scope.

(** ** ECMAScript string built-ins used by the provider *)

Module Js.

(** The one-character string holding a double quote (code unit 34). *)
Definition dq : string := String "034"%char EmptyString.
(** Backslash, dollar sign and backtick, as characters. *)
Definition c_dq : ascii := "034"%char.
Definition c_bslash : ascii := "092"%char.
Definition c_dollar : ascii := "036"%char.
Definition c_btick : ascii := "096"%char.
Definition c_nl : ascii := "010"%char.
(** The one-character string holding a line feed. *)
Definition nl : string := String c_nl EmptyString.

(** [String.prototype.startsWith], with the receiver second. *)
Fixpoint starts_with (p s : string) : bool :=
  match p with
  | EmptyString => true
  | String a p' =>
      match s with
      | String b s' => if Ascii.eqb a b then starts_with p' s' else false
      | EmptyString => false
      end
  end.

(** [String.prototype.includes]: [includes s m] is [s.includes(m)]. *)
Fixpoint includes (s m : string) : bool :=
  if starts_with m s then true
  else match s with
       | EmptyString => false
       | String _ s' => includes s' m
       end.

(** White space and line terminators of ECMAScript among the code units
    below 256: TAB, LF, VT, FF, CR, SP and NBSP. *)
Definition is_space (c : ascii) : bool :=
  match nat_of_ascii c with
  | 9 | 10 | 11 | 12 | 13 | 32 | 160 => true
  | _ => false
  end.

Fixpoint trim_start (s : string) : string :=
  match s with
  | String c s' => if is_space c then trim_start s' else s
  | EmptyString => EmptyString
  end.

Fixpoint trim_end (s : string) : string :=
  match s with
  | EmptyString => EmptyString
  | String c s' =>
      match trim_end s' with
      | EmptyString => if is_space c then EmptyString else String c EmptyString
      | t => String c t
      end
  end.

(** [String.prototype.trim]. *)
Definition trim (s : string) : string := trim_end (trim_start s).

(** [Array.prototype.join]. *)
Fixpoint join (sep : string) (l : list string) : string :=
  match l with
  | [] => EmptyString
  | [x] => x
  | x :: rest => x ++ sep ++ join sep rest
  end.

(** A thrown value: an [Error] object with its message, or any other value,
    of which the code only ever takes [String(value)]. *)
Inductive Thrown : Type :=
| JsError (message : string)
| JsValue (text : string).

(** [error instanceof Error ? error.message : String(error)] *)
Definition error_text (e : Thrown) : string :=
  match e with
  | JsError m => m
  | JsValue t => t
  end.

End Js.

(** ** Runtime detection *)

(** Modelled from the spec: the [Runtime] type is imported from
    [@computesdk/provider], whose declaration is not part of this package;
    the specification gives it as the enumeration of [node] and [python]. *)
Inductive Runtime : Type := node | python.

Definition node_markers : list string :=
  [ "console.log"; "process."; "require("; "module.exports"; "__dirname";
    "__filename"; "throw new Error"; "new Error(" ].

Definition python_markers : list string :=
  [ "print("; "import "; "def "; "sys."; "json."; "f" ++ Js.dq; "f'";
    "raise " ].

(** [code.includes(m1) || code.includes(m2) || ...] *)
Definition includes_any (code : string) (ms : list string) : bool :=
  existsb (Js.includes code) ms.

Definition detectRuntime (code : string) : Runtime :=
  if includes_any code node_markers then node
  else if includes_any code python_markers then python
  else node.

(** ** Command composition of [runCommand] *)

(** [s.replace(/c/g, r)] for a single character [c]. *)
Fixpoint replace_char (c : ascii) (r : string) (s : string) : string :=
  match s with
  | EmptyString => EmptyString
  | String a s' =>
      if Ascii.eqb a c then r ++ replace_char c r s'
      else String a (replace_char c r s')
  end.

(** Modelled from the spec: [escapeShellArg] is imported from
    [@computesdk/provider] and is not part of this package.  The
    specification asks that each value be shell-escaped so that it cannot
    break out of its quoting context; the call sites put the result between
    double quotes, where backslash, double quote, dollar sign and backtick
    are the characters that keep a meaning.  Each is prefixed with a
    backslash, backslash first. *)
Definition escapeShellArg (arg : string) : string :=
  let bs := String Js.c_bslash EmptyString in
  replace_char Js.c_btick (bs ++ String Js.c_btick EmptyString)
    (replace_char Js.c_dollar (bs ++ String Js.c_dollar EmptyString)
       (replace_char Js.c_dq (bs ++ Js.dq)
          (replace_char Js.c_bslash (bs ++ bs) arg))).

(** [RunCommandOptions]: [env] is given by its [Object.entries], in order. *)
Record RunCommandOptions : Type := {
  opt_env : option (list (string * string));
  opt_cwd : option string;
  opt_background : option bool
}.

(** [`${k}="${escapeShellArg(v)}"`] *)
Definition env_assignment (kv : string * string) : string :=
  fst kv ++ "=" ++ Js.dq ++ escapeShellArg (snd kv) ++ Js.dq.

Definition envPrefix (env : list (string * string)) : string :=
  Js.join " " (map env_assignment env).

(** [if (options?.env && Object.keys(options.env).length > 0)] *)
Definition with_env (env : option (list (string * string)))
    (fullCommand : string) : string :=
  match env with
  | Some ((_ :: _) as entries) => envPrefix entries ++ " " ++ fullCommand
  | _ => fullCommand
  end.

(** [if (options?.cwd)]: the empty string is falsy. *)
Definition with_cwd (cwd : option string) (fullCommand : string) : string :=
  match cwd with
  | Some (String _ _ as dir) =>
      "cd " ++ Js.dq ++ escapeShellArg dir ++ Js.dq ++ " && " ++ fullCommand
  | _ => fullCommand
  end.

(** [if (options?.background)] *)
Definition with_background (background : option bool)
    (fullCommand : string) : string :=
  match background with
  | Some true => "nohup " ++ fullCommand ++ " > /dev/null 2>&1 &"
  | _ => fullCommand
  end.

(** The string handed to [sh -c]; [options] itself is optional. *)
Definition fullCommand (command : string)
    (options : option RunCommandOptions) : string :=
  match options with
  | None => command
  | Some o =>
      with_background (opt_background o)
        (with_cwd (opt_cwd o) (with_env (opt_env o) command))
  end.

(** ** The shell's reading of double-quoted text

    POSIX sh, section 2.2.3: between double quotes every character is
    literal except the dollar sign and the backtick, which start an
    expansion, and the backslash, which escapes a following dollar sign,
    backtick, double quote or backslash and removes a following newline;
    the next unescaped double quote ends the quoted text.

    [sh_dquote s] reads [s] from just after an opening double quote.  It
    yields the literal text of the quoted part and what follows the closing
    quote, or [None] when the text is not closed or starts an expansion. *)
Module Sh.

Definition escapable (c : ascii) : bool :=
  Ascii.eqb c Js.c_dollar || Ascii.eqb c Js.c_btick
  || Ascii.eqb c Js.c_dq || Ascii.eqb c Js.c_bslash.

Definition cons_fst (c : ascii) (r : option (string * string)) :
    option (string * string) :=
  match r with
  | Some (lit, rest) => Some (String c lit, rest)
  | None => None
  end.

Fixpoint sh_dquote (s : string) : option (string * string) :=
  match s with
  | EmptyString => None
  | String c rest =>
      if Ascii.eqb c Js.c_dq then Some (EmptyString, rest)
      else if Ascii.eqb c Js.c_dollar || Ascii.eqb c Js.c_btick then None
      else if Ascii.eqb c Js.c_bslash then
        match rest with
        | EmptyString => None
        | String d rest' =>
            if escapable d then cons_fst d (sh_dquote rest')
            else if Ascii.eqb d Js.c_nl then sh_dquote rest'
            else cons_fst c (sh_dquote rest)
        end
      else cons_fst c (sh_dquote rest)
  end.

End Sh.

(** ** The [URL] objects of the platform

    [getUrl] builds a [URL] from the tunnel's address, assigns its
    [protocol] and serialises it.  The record, the [protocol] setter and the
    serialiser follow the WHATWG URL standard (sections 4.1, 4.4, 4.5 and
    6.1); parsing an address is left to the host environment. *)
Module Url.

Inductive UPath : Type :=
| Opaque (text : string)
| Segments (segs : list string).

Record URLRecord : Type := {
  scheme : string;
  username : string;
  password : string;
  host : option string;
  port : option N;
  path : UPath;
  query : option string;
  fragment : option string
}.

(** Special schemes and their default ports. *)
Definition special_port (s : string) : option (option N) :=
  if String.eqb s "ftp" then Some (Some 21%N)
  else if String.eqb s "file" then Some None
  else if String.eqb s "http" then Some (Some 80%N)
  else if String.eqb s "https" then Some (Some 443%N)
  else if String.eqb s "ws" then Some (Some 80%N)
  else if String.eqb s "wss" then Some (Some 443%N)
  else None.

Definition is_special (s : string) : bool :=
  match special_port s with Some _ => true | None => false end.

Definition default_port (s : string) : option N :=
  match special_port s with Some p => p | None => None end.

Definition is_upper (c : ascii) : bool :=
  let n := nat_of_ascii c in (65 <=? n)%nat && (n <=? 90)%nat.
Definition is_lower (c : ascii) : bool :=
  let n := nat_of_ascii c in (97 <=? n)%nat && (n <=? 122)%nat.
Definition is_digit (c : ascii) : bool :=
  let n := nat_of_ascii c in (48 <=? n)%nat && (n <=? 57)%nat.
Definition is_alpha (c : ascii) : bool := is_upper c || is_lower c.
Definition lower (c : ascii) : ascii :=
  if is_upper c then ascii_of_nat (nat_of_ascii c + 32) else c.

(** A character allowed in a scheme after its first letter. *)
Definition is_scheme_char (c : ascii) : bool :=
  is_alpha c || is_digit c
  || Ascii.eqb c "+" || Ascii.eqb c "-" || Ascii.eqb c ".".

Fixpoint all_chars (p : ascii -> bool) (s : string) : bool :=
  match s with
  | EmptyString => true
  | String c s' => p c && all_chars p s'
  end.

Fixpoint map_string (f : ascii -> ascii) (s : string) : string :=
  match s with
  | EmptyString => EmptyString
  | String c s' => String (f c) (map_string f s')
  end.

(** A scheme name: a letter, then letters, digits, [+], [-] and [.]. *)
Definition is_scheme_name (s : string) : bool :=
  match s with
  | String c _ => is_alpha c && all_chars is_scheme_char s
  | EmptyString => false
  end.

Definition lowercase (s : string) : string := map_string lower s.

Definition is_tab_or_newline (c : ascii) : bool :=
  match nat_of_ascii c with
  | 9 | 10 | 13 => true
  | _ => false
  end.

Fixpoint remove_tab_newline (s : string) : string :=
  match s with
  | EmptyString => EmptyString
  | String c s' =>
      if is_tab_or_newline c then remove_tab_newline s'
      else String c (remove_tab_newline s')
  end.

(** Scheme state of the basic URL parser with a state override: the
    characters of a scheme are collected, lower-cased, up to the first
    colon; anything else before a colon, or no colon at all, is a failure. *)
Fixpoint scan_scheme (s : string) : option string :=
  match s with
  | EmptyString => None
  | String c s' =>
      if is_scheme_char c then
        match scan_scheme s' with
        | Some b => Some (String (lower c) b)
        | None => None
        end
      else if Ascii.eqb c ":" then Some EmptyString
      else None
  end.

(** Scheme start state followed by scheme state: the first character has
    to be a letter. *)
Definition scheme_of_input (input : string) : option string :=
  match remove_tab_newline input with
  | String c _ as s => if is_alpha c then scan_scheme s else None
  | EmptyString => None
  end.

Definition includes_credentials (u : URLRecord) : bool :=
  negb (String.eqb (username u) "") || negb (String.eqb (password u) "").

Definition has_port (u : URLRecord) : bool :=
  match port u with Some _ => true | None => false end.

Definition has_empty_host (u : URLRecord) : bool :=
  match host u with Some h => String.eqb h "" | None => false end.

(** The four cases in which the scheme state leaves the URL as it is. *)
Definition scheme_change_refused (u : URLRecord) (buffer : string) : bool :=
  (is_special (scheme u) && negb (is_special buffer))
  || (negb (is_special (scheme u)) && is_special buffer)
  || ((includes_credentials u || has_port u) && String.eqb buffer "file")
  || (String.eqb (scheme u) "file" && has_empty_host u).

Definition opt_N_eqb (a b : option N) : bool :=
  match a, b with
  | Some x, Some y => N.eqb x y
  | None, None => true
  | _, _ => false
  end.

Definition with_scheme (u : URLRecord) (s : string) : URLRecord :=
  {| scheme := s; username := username u; password := password u;
     host := host u;
     port := if opt_N_eqb (port u) (default_port s) then None else port u;
     path := path u; query := query u; fragment := fragment u |}.

(** The [protocol] setter: [value], followed by a colon, goes through the
    basic URL parser with the URL itself and the scheme start state as
    override; a failure leaves the URL unchanged. *)
Definition set_protocol (u : URLRecord) (value : string) : URLRecord :=
  match scheme_of_input (value ++ ":") with
  | Some buffer =>
      if scheme_change_refused u buffer then u else with_scheme u buffer
  | None => u
  end.

Definition decimal (n : N) : string :=
  DecimalString.NilZero.string_of_uint (N.to_uint n).

Definition serialize_path (p : UPath) : string :=
  match p with
  | Opaque text => text
  | Segments segs => String.concat "" (map (fun seg => "/" ++ seg) segs)
  end.

Definition needs_dot_prefix (u : URLRecord) : bool :=
  match host u, path u with
  | None, Segments (EmptyString :: _ :: _) => true
  | _, _ => false
  end.

Definition serialize_authority (u : URLRecord) : string :=
  match host u with
  | None => ""
  | Some h =>
      "//"
      ++ (if includes_credentials u then
            username u
            ++ (if String.eqb (password u) "" then "" else ":" ++ password u)
            ++ "@"
          else "")
      ++ h
      ++ match port u with Some p => ":" ++ decimal p | None => "" end
  end.

(** The URL serialiser, which is [URL.prototype.toString]. *)
Definition serialize (u : URLRecord) : string :=
  scheme u ++ ":"
  ++ serialize_authority u
  ++ (if needs_dot_prefix u then "/." else "")
  ++ serialize_path (path u)
  ++ match query u with Some q => "?" ++ q | None => "" end
  ++ match fragment u with Some f => "#" ++ f | None => "" end.

End Url.

(** ** The remote service and the host environment *)

Definition App := N.
Definition Image := N.
(** A sandbox object of the SDK, compared by identity. *)
Definition Sandbox := N.
Definition Process := N.

(** What [sandbox.open] resolves to: possibly nothing, and otherwise an
    object that may or may not have each of the three methods. *)
Record FileObject : Type := {
  file_ref : N;
  has_read : bool;
  has_write : bool;
  has_close : bool
}.

(** What [file.read()] resolves to: a string, or bytes to be decoded. *)
Inductive FileData : Type :=
| TextData (text : string)
| BinaryData (bytes : list Byte.byte).

(** [ModalSandbox] *)
Record ModalSandbox : Type := {
  sandbox : Sandbox;
  sandboxId : string
}.

(** The calls made to the SDK. *)
Inductive Call : Type :=
| CAppLookup (name : string)
| CImageFromRegistry (app : App) (name : string)
| CCreateSandbox (app : App) (image : Image)
| CExec (sb : Sandbox) (argv : list string) (piped : bool)
| CReadStreams (p : Process)
| CWait (p : Process)
| CTerminate (sb : Sandbox)
| CPoll (sb : Sandbox)
| CTunnels (sb : Sandbox)
| COpen (sb : Sandbox) (path : string)
| CFileRead (f : FileObject)
| CFileWrite (f : FileObject) (content : string)
| CFileClose (f : FileObject).

(** What a call resolves to. *)
Inductive Value : Type :=
| VUnit
| VApp (a : App)
| VImage (i : Image)
| VSandbox (sb : Sandbox)
| VProcess (p : Process)
| VStreams (stdout stderr : string)
| VExit (code : Z)
| VPoll (r : option Z)
| VTunnels (t : list (N * string))
| VFile (f : option FileObject)
| VData (d : FileData).

(** A call with its outcome: the thrown value, or the value resolved to. *)
Definition Event : Type := Call * (Js.Thrown + Value).
Definition Trace : Type := list Event.

(** The remote service as a state machine over a state [W], with the
    built-ins of the platform that are not modelled here.  The two reads of
    [Promise.all([process.stdout.readText(), process.stderr.readText()])]
    are one step, which yields both texts or the rejection that wins. *)
Record Host (W : Type) : Type := {
  now : W -> Z;
  app_lookup : string -> W -> W * (Js.Thrown + App);
  image_from_registry : App -> string -> W -> W * (Js.Thrown + Image);
  create_sandbox : App -> Image -> W -> W * (Js.Thrown + Sandbox);
  sb_exec : Sandbox -> list string -> bool -> W -> W * (Js.Thrown + Process);
  read_streams : Process -> W -> W * (Js.Thrown + (string * string));
  proc_wait : Process -> W -> W * (Js.Thrown + Z);
  sb_terminate : Sandbox -> W -> W * (Js.Thrown + unit);
  sb_poll : Sandbox -> W -> W * (Js.Thrown + option Z);
  sb_tunnels : Sandbox -> W -> W * (Js.Thrown + list (N * string));
  sb_open : Sandbox -> string -> W -> W * (Js.Thrown + option FileObject);
  file_read : FileObject -> W -> W * (Js.Thrown + FileData);
  file_write : FileObject -> string -> W -> W * (Js.Thrown + unit);
  file_close : FileObject -> W -> W * (Js.Thrown + unit);
  text_decode : list Byte.byte -> string;
  url_parse : string -> Js.Thrown + Url.URLRecord
}.

Arguments now {W}.
Arguments app_lookup {W}.
Arguments image_from_registry {W}.
Arguments create_sandbox {W}.
Arguments sb_exec {W}.
Arguments read_streams {W}.
Arguments proc_wait {W}.
Arguments sb_terminate {W}.
Arguments sb_poll {W}.
Arguments sb_tunnels {W}.
Arguments sb_open {W}.
Arguments file_read {W}.
Arguments file_write {W}.
Arguments file_close {W}.
Arguments text_decode {W}.
Arguments url_parse {W}.

(** ** Asynchronous code as a state and exception monad

    An [async] function runs from a state of the remote service and the
    trace so far; it returns or throws, and leaves a state and a trace. *)

Inductive Outcome (A : Type) : Type :=
| Returned (a : A)
| Threw (e : Js.Thrown).
Arguments Returned {A}.
Arguments Threw {A}.

Definition Async (W A : Type) : Type :=
  W * Trace -> Outcome A * (W * Trace).

Definition ret {W A} (a : A) : Async W A := fun st => (Returned a, st).

Definition throw {W A} (e : Js.Thrown) : Async W A := fun st => (Threw e, st).

Definition bind {W A B} (m : Async W A) (k : A -> Async W B) : Async W B :=
  fun st =>
    match m st with
    | (Returned a, st') => k a st'
    | (Threw e, st') => (Threw e, st')
    end.

(** [try { m } catch (error) { handler error }] *)
Definition try_catch {W A} (m : Async W A) (handler : Js.Thrown -> Async W A)
    : Async W A :=
  fun st =>
    match m st with
    | (Returned a, st') => (Returned a, st')
    | (Threw e, st') => handler e st'
    end.

(** [await] of one call to the SDK: the service makes a step and the call
    is recorded with its outcome. *)
Definition await {W A} (c : Call) (inj : A -> Value)
    (step : W -> W * (Js.Thrown + A)) : Async W A :=
  fun st =>
    let '(w, tr) := st in
    match step w with
    | (w', inl e) => (Threw e, (w', (tr ++ [(c, inl e)])%list))
    | (w', inr a) => (Returned a, (w', (tr ++ [(c, inr (inj a))])%list))
    end.

(** A built-in that may throw but makes no call. *)
Definition lift {W A} (r : Js.Thrown + A) : Async W A :=
  match r with
  | inl e => throw e
  | inr a => ret a
  end.

(** A run from a state of the service, with an empty trace. *)
Definition run {W A} (m : Async W A) (w : W) : Outcome A * (W * Trace) :=
  m (w, []).

Declare Scope async_scope.
Delimit Scope async_scope with async.
Notation "x <- m ;; k" := (bind m (fun x => k))
  (at level 100, m at next level, right associativity) : async_scope.
Notation "' pat <- m ;; k" := (bind m (fun x => match x with pat => k end))
  (at level 100, pat pattern, m at next level, right associativity)
  : async_scope.
Notation "m ;; k" := (bind m (fun _ => k))
  (at level 100, right associativity) : async_scope.
Local Open Scope async_scope.

(** ** Result shapes *)

Record CodeResult : Type := {
  output : string;
  code_exitCode : Z;
  language : Runtime
}.

Record CommandResult : Type := {
  stdout : string;
  stderr : string;
  exitCode : Z;
  durationMs : Z
}.

Inductive Status : Type := running | stopped | error.

Record Metadata : Type := {
  modalSandboxId : string;
  realModalImplementation : bool
}.

Record SandboxInfo : Type := {
  id : string;
  provider : string;
  runtime : Runtime;
  status : Status;
  createdAt : Z;
  timeout : Z;
  metadata : Metadata
}.

(** [s || ''] and [n || 0]: the empty string and zero are falsy. *)
Definition or_string (s d : string) : string :=
  match s with
  | EmptyString => d
  | _ => s
  end.

Definition or_number (n d : Z) : Z := if Z.eqb n 0 then d else n.

(** [stderr.includes('SyntaxError') || stderr.includes('invalid syntax')] *)
Definition syntax_signature (stderr : string) : bool :=
  Js.includes stderr "SyntaxError" || Js.includes stderr "invalid syntax".

(** [error instanceof Error && error.message.includes(m)] *)
Definition is_error_including (e : Js.Thrown) (m : string) : bool :=
  match e with
  | Js.JsError msg => Js.includes msg m
  | Js.JsValue _ => false
  end.

(** ** The sandbox operations *)

Section Operations.

Context {W : Type} (H : Host W).

(** [Date.now()], and [new Date()] as its time value. *)
Definition date_now : Async W Z := fun st => (Returned (now H (fst st)), st).

Definition exec (sb : Sandbox) (argv : list string) (piped : bool)
    : Async W Process :=
  await (CExec sb argv piped) VProcess (sb_exec H sb argv piped).

Definition readStreams (p : Process) : Async W (string * string) :=
  await (CReadStreams p) (fun r => VStreams (fst r) (snd r))
    (read_streams H p).

Definition wait (p : Process) : Async W Z :=
  await (CWait p) VExit (proc_wait H p).

Definition terminate (sb : Sandbox) : Async W unit :=
  await (CTerminate sb) (fun _ => VUnit) (sb_terminate H sb).

(** The auxiliary Python sandbox of [runCode]. *)
Definition createPythonSandbox : Async W Sandbox :=
  app <- await (CAppLookup "computesdk-modal") VApp
           (app_lookup H "computesdk-modal") ;;
  pythonImage <- await (CImageFromRegistry app "python:3.13-slim") VImage
                   (image_from_registry H app "python:3.13-slim") ;;
  await (CCreateSandbox app pythonImage) VSandbox
    (create_sandbox H app pythonImage).

(** The [try] block of [runCode]. *)
Definition runCode_try (modalSandbox : ModalSandbox) (code : string)
    (runtime : option Runtime) : Async W CodeResult :=
  let detectedRuntime :=
    match runtime with Some r => r | None => detectRuntime code end in
  '(executionSandbox, command, shouldCleanupSandbox) <-
    match detectedRuntime with
    | node => ret (sandbox modalSandbox, ["node"; "-e"; code], false)
    | python =>
        sb <- createPythonSandbox ;;
        ret (sb, ["python3"; "-c"; code], true)
    end ;;
  process <- exec executionSandbox command true ;;
  '(stdout, stderr) <- readStreams process ;;
  exitCode <- wait process ;;
  (if shouldCleanupSandbox
      && negb (N.eqb executionSandbox (sandbox modalSandbox))
   then try_catch (terminate executionSandbox) (fun _ => ret tt)
   else ret tt) ;;
  if negb (Z.eqb exitCode 0) && negb (String.eqb stderr "")
     && syntax_signature stderr
  then throw (Js.JsError ("Syntax error: " ++ Js.trim stderr))
  else ret {| output := or_string stdout "" ++ or_string stderr "";
              code_exitCode := or_number exitCode 0;
              language := detectedRuntime |}.

Definition runCode (modalSandbox : ModalSandbox) (code : string)
    (runtime : option Runtime) : Async W CodeResult :=
  _ <- date_now ;;
  try_catch (runCode_try modalSandbox code runtime)
    (fun error =>
       if is_error_including error "Syntax error" then throw error
       else throw (Js.JsError
                     ("Modal execution failed: " ++ Js.error_text error))).

Definition runCommand (modalSandbox : ModalSandbox) (command : string)
    (options : option RunCommandOptions) : Async W CommandResult :=
  startTime <- date_now ;;
  try_catch
    (process <- exec (sandbox modalSandbox)
                  ["sh"; "-c"; fullCommand command options] true ;;
     '(out, err) <- readStreams process ;;
     code <- wait process ;;
     t <- date_now ;;
     ret {| stdout := or_string out ""; stderr := or_string err "";
            exitCode := or_number code 0; durationMs := t - startTime |})
    (fun error =>
       t <- date_now ;;
       ret {| stdout := ""; stderr := Js.error_text error;
              exitCode := 127; durationMs := t - startTime |}).

Definition getInfo (modalSandbox : ModalSandbox) : Async W SandboxInfo :=
  st <- try_catch
          (pollResult <- await (CPoll (sandbox modalSandbox)) VPoll
                           (sb_poll H (sandbox modalSandbox)) ;;
           match pollResult with
           | Some r => ret (if Z.eqb r 0 then stopped else error)
           | None => ret running
           end)
          (fun _ => ret running) ;;
  t <- date_now ;;
  ret {| id := sandboxId modalSandbox;
         provider := "modal";
         runtime := node;
         status := st;
         createdAt := t;
         timeout := 300000;
         metadata := {| modalSandboxId := sandboxId modalSandbox;
                        realModalImplementation := true |} |}.

(** [tunnels[port]] on the object given by its entries. *)
Fixpoint tunnel_at (tunnels : list (N * string)) (p : N) : option string :=
  match tunnels with
  | [] => None
  | (q, url) :: rest => if N.eqb q p then Some url else tunnel_at rest p
  end.

(** [Object.keys(tunnels)] on the object given by its entries: the keys
    that are array indices (the integers below 2^32 - 1) in ascending
    order, then the other keys in the order of their creation.  A key given
    twice is one property. *)
Fixpoint insert_key (k : N) (keys : list N) : list N :=
  match keys with
  | [] => [k]
  | j :: rest =>
      if N.ltb k j then k :: keys
      else if N.eqb k j then keys
      else j :: insert_key k rest
  end.

Definition is_array_index (k : N) : bool := N.ltb k (2 ^ 32 - 1).

Fixpoint created_keys (seen keys : list N) : list N :=
  match keys with
  | [] => []
  | k :: rest =>
      if existsb (N.eqb k) seen then created_keys seen rest
      else k :: created_keys (k :: seen) rest
  end.

Definition object_keys (tunnels : list (N * string)) : list N :=
  let keys := map fst tunnels in
  fold_right insert_key [] (filter is_array_index keys)
  ++ created_keys [] (filter (fun k => negb (is_array_index k)) keys).

Definition getUrl (modalSandbox : ModalSandbox) (port : N)
    (protocol : option string) : Async W string :=
  try_catch
    (tunnels <- await (CTunnels (sandbox modalSandbox)) VTunnels
                  (sb_tunnels H (sandbox modalSandbox)) ;;
     match tunnel_at tunnels port with
     | None =>
         throw (Js.JsError
                  ("No tunnel found for port " ++ Url.decimal port
                   ++ ". Available ports: "
                   ++ Js.join ", " (map Url.decimal (object_keys tunnels))))
     | Some url =>
         match protocol with
         | Some (String _ _ as p) =>
             urlObj <- lift (url_parse H url) ;;
             ret (Url.serialize (Url.set_protocol urlObj (p ++ ":")))
         | _ => ret url
         end
     end)
    (fun error =>
       throw (Js.JsError
                ("Failed to get Modal tunnel URL for port "
                 ++ Url.decimal port ++ ": " ++ Js.error_text error))).

(** *** Filesystem *)

(** [if (file && typeof file.close === 'function') await file.close()] *)
Definition close_if_possible (file : option FileObject) : Async W unit :=
  match file with
  | Some f =>
      if has_close f then
        await (CFileClose f) (fun _ => VUnit) (file_close H f)
      else ret tt
  | None => ret tt
  end.

(** The outer [try] block of [readFile]: the file API. *)
Definition readFile_primary (modalSandbox : ModalSandbox) (path : string)
    : Async W string :=
  file <- await (COpen (sandbox modalSandbox) path) VFile
            (sb_open H (sandbox modalSandbox) path) ;;
  content <-
    match file with
    | Some f =>
        if has_read f then
          data <- await (CFileRead f) VData (file_read H f) ;;
          ret match data with
              | TextData text => text
              | BinaryData bytes => text_decode H bytes
              end
        else ret ""
    | None => ret ""
    end ;;
  close_if_possible file ;;
  ret content.

(** The inner [try] block of [readFile]: [cat]. *)
Definition readFile_fallback (modalSandbox : ModalSandbox) (path : string)
    : Async W string :=
  process <- exec (sandbox modalSandbox) ["cat"; path] true ;;
  '(content, err) <- readStreams process ;;
  code <- wait process ;;
  if negb (Z.eqb code 0) then throw (Js.JsError ("cat failed: " ++ err))
  else ret (Js.trim content).

Definition readFile (modalSandbox : ModalSandbox) (path : string)
    : Async W string :=
  try_catch (readFile_primary modalSandbox path)
    (fun error =>
       try_catch (readFile_fallback modalSandbox path)
         (fun fallbackError =>
            throw (Js.JsError ("Failed to read file " ++ path ++ ": "
                               ++ Js.error_text error)))).

Definition writeFile_primary (modalSandbox : ModalSandbox)
    (path content : string) : Async W unit :=
  file <- await (COpen (sandbox modalSandbox) path) VFile
            (sb_open H (sandbox modalSandbox) path) ;;
  match file with
  | Some f =>
      if has_write f then
        await (CFileWrite f content) (fun _ => VUnit)
          (file_write H f content)
      else ret tt
  | None => ret tt
  end ;;
  close_if_possible file.

(** [`printf '%s' "${content.replace(/"/g, '\\"')}" > "${path}"`] *)
Definition write_command (path content : string) : string :=
  "printf '%s' " ++ Js.dq
  ++ replace_char Js.c_dq (String Js.c_bslash Js.dq) content
  ++ Js.dq ++ " > " ++ Js.dq ++ path ++ Js.dq.

Definition writeFile_fallback (modalSandbox : ModalSandbox)
    (path content : string) : Async W unit :=
  process <- exec (sandbox modalSandbox)
               ["sh"; "-c"; write_command path content] true ;;
  '(_, err) <- readStreams process ;;
  code <- wait process ;;
  if negb (Z.eqb code 0) then throw (Js.JsError ("write failed: " ++ err))
  else ret tt.

Definition writeFile (modalSandbox : ModalSandbox) (path content : string)
    : Async W unit :=
  try_catch (writeFile_primary modalSandbox path content)
    (fun error =>
       try_catch (writeFile_fallback modalSandbox path content)
         (fun fallbackError =>
            throw (Js.JsError ("Failed to write file " ++ path ++ ": "
                               ++ Js.error_text error)))).

(** [filesystem.exists]; named [exists_] since [exists] is a keyword. *)
Definition exists_ (modalSandbox : ModalSandbox) (path : string)
    : Async W bool :=
  try_catch
    (process <- exec (sandbox modalSandbox) ["test"; "-e"; path] false ;;
     code <- wait process ;;
     ret (Z.eqb code 0))
    (fun _ => ret false).

End Operations.

(** Calls of the file API, and calls that run a process. *)
Definition is_file_call (c : Call) : bool :=
  match c with
  | COpen _ _ | CFileRead _ | CFileWrite _ _ | CFileClose _ => true
  | _ => false
  end.

Definition is_process_call (c : Call) : bool :=
  match c with
  | CExec _ _ _ | CReadStreams _ | CWait _ => true
  | _ => false
  end.

Definition is_terminate (c : Call) : bool :=
  match c with
  | CTerminate _ => true
  | _ => false
  end.


(** ** Concrete host environments

    Used to run the operations on concrete inputs. *)

(** A parser for plain addresses [scheme://host[:port][/path][?query][#frag]]
    with a special scheme other than [file], no credentials, a host made of
    dot-separated labels of lower-case letters, digits and hyphens that
    start with a letter and are not in Punycode form, a decimal port, path
    segments other than [.] and [..], and only unreserved characters in
    path, query (also [=] and [&]) and fragment.  On these the URL parser of
    the standard needs no percent-encoding, no host normalisation and no
    path shortening, and gives the record built here; every other input is
    rejected. *)
Module UrlSubset.

Import Url.

Fixpoint span (p : ascii -> bool) (s : string) : string * string :=
  match s with
  | EmptyString => (EmptyString, EmptyString)
  | String c s' =>
      if p c then let '(a, b) := span p s' in (String c a, b)
      else (EmptyString, s)
  end.

Fixpoint split_on (sep : ascii) (s : string) : list string :=
  match s with
  | EmptyString => [EmptyString]
  | String c s' =>
      if Ascii.eqb c sep then EmptyString :: split_on sep s'
      else match split_on sep s' with
           | h :: t => String c h :: t
           | [] => [String c EmptyString]
           end
  end.

Definition is_unreserved (c : ascii) : bool :=
  is_alpha c || is_digit c
  || Ascii.eqb c "-" || Ascii.eqb c "." || Ascii.eqb c "_" || Ascii.eqb c "~".

Definition is_query_char (c : ascii) : bool :=
  is_unreserved c || Ascii.eqb c "=" || Ascii.eqb c "&".

Definition is_label_char (c : ascii) : bool :=
  is_lower c || is_digit c || Ascii.eqb c "-".

Definition label_ok (l : string) : bool :=
  match l with
  | String c _ =>
      is_lower c && all_chars is_label_char l && negb (Js.starts_with "xn--" l)
  | EmptyString => false
  end.

Definition host_ok (h : string) : bool := forallb label_ok (split_on "." h).

Definition segment_ok (s : string) : bool :=
  all_chars is_unreserved s
  && negb (String.eqb s ".") && negb (String.eqb s "..").

Definition digit_value (c : ascii) : N := N.of_nat (nat_of_ascii c - 48).

Fixpoint decimal_value (acc : N) (s : string) : N :=
  match s with
  | EmptyString => acc
  | String c s' => decimal_value (10 * acc + digit_value c) s'
  end.

Definition invalid {A} : Js.Thrown + A := inl (Js.JsError "Invalid URL").

Definition parse_tail (sch h : string) (p : option N) (rest : string)
    : Js.Thrown + URLRecord :=
  let '(pa, r1) :=
    span (fun c => negb (Ascii.eqb c "?" || Ascii.eqb c "#")) rest in
  let segs :=
    match pa with
    | EmptyString => Some [EmptyString]
    | String c pa' => if Ascii.eqb c "/" then Some (split_on "/" pa') else None
    end in
  let '(q, r2) :=
    match r1 with
    | String "?" r =>
        let '(q, r2) := span (fun c => negb (Ascii.eqb c "#")) r in (Some q, r2)
    | _ => (None, r1)
    end in
  let f := match r2 with String "#" r => Some r | _ => None end in
  match segs with
  | Some ss =>
      if forallb segment_ok ss
         && match q with Some t => all_chars is_query_char t | None => true end
         && match f with Some t => all_chars is_unreserved t | None => true end
      then inr {| scheme := sch; username := ""; password := "";
                  host := Some h;
                  port := if opt_N_eqb p (default_port sch) then None else p;
                  path := Segments ss; query := q; fragment := f |}
      else invalid
  | None => invalid
  end.

Definition parse (s : string) : Js.Thrown + URLRecord :=
  let '(sch0, r0) := span is_scheme_char s in
  let sch := map_string lower sch0 in
  match sch0, r0 with
  | String c _, String ":" (String "/" (String "/" r1)) =>
      if is_alpha c && is_special sch && negb (String.eqb sch "file") then
        let '(h, r2) := span (fun c => is_label_char c || Ascii.eqb c ".") r1 in
        if host_ok h then
          match r2 with
          | String ":" r3 =>
              let '(ds, r4) := span is_digit r3 in
              let p := decimal_value 0 ds in
              if (String.length ds <=? 5)%nat && (p <=? 65535)%N then
                parse_tail sch h
                  (match ds with EmptyString => None | _ => Some p end) r4
              else invalid
          | _ => parse_tail sch h None r2
          end
        else invalid
      else invalid
  | _, _ => invalid
  end.

End UrlSubset.

(** A remote service whose answers are fixed in advance.  Its state is the
    clock, in milliseconds, and every call takes one millisecond. *)
Record Scenario : Type := {
  on_create : Js.Thrown + Sandbox;
  on_exec : list string -> Js.Thrown + Process;
  on_streams : Js.Thrown + (string * string);
  on_wait : Js.Thrown + Z;
  on_terminate : Js.Thrown + unit;
  on_poll : Js.Thrown + option Z;
  on_tunnels : Js.Thrown + list (N * string);
  on_open : Js.Thrown + option FileObject;
  on_read : Js.Thrown + FileData;
  on_write : Js.Thrown + unit;
  on_close : Js.Thrown + unit
}.

Definition tick {A} (r : A) (w : Z) : Z * A := ((w + 1)%Z, r).

Definition scenario_host (s : Scenario) : Host Z := {|
  now := fun w => w;
  app_lookup := fun _ => tick (inr 1%N);
  image_from_registry := fun _ _ => tick (inr 2%N);
  create_sandbox := fun _ _ => tick (on_create s);
  sb_exec := fun _ argv _ => tick (on_exec s argv);
  read_streams := fun _ => tick (on_streams s);
  proc_wait := fun _ => tick (on_wait s);
  sb_terminate := fun _ => tick (on_terminate s);
  sb_poll := fun _ => tick (on_poll s);
  sb_tunnels := fun _ => tick (on_tunnels s);
  sb_open := fun _ _ => tick (on_open s);
  file_read := fun _ => tick (on_read s);
  file_write := fun _ _ => tick (on_write s);
  file_close := fun _ => tick (on_close s);
  text_decode := string_of_list_byte;
  url_parse := UrlSubset.parse
|}.

Definition a_file : FileObject :=
  {| file_ref := 5; has_read := true; has_write := true; has_close := true |}.

(** Everything succeeds: a process that prints [out] and [err] and exits
    with [code], a file that holds [text], and the given tunnels. *)
Definition calm (out err : string) (code : Z) (text : string)
    (tunnels : list (N * string)) : Scenario := {|
  on_create := inr 7%N;
  on_exec := fun _ => inr 3%N;
  on_streams := inr (out, err);
  on_wait := inr code;
  on_terminate := inr tt;
  on_poll := inr None;
  on_tunnels := inr tunnels;
  on_open := inr (Some a_file);
  on_read := inr (TextData text);
  on_write := inr tt;
  on_close := inr tt
|}.

(** As [base], but starting a process fails with [e]. *)
Definition exec_fails (e : Js.Thrown) (base : Scenario) : Scenario := {|
  on_create := on_create base;
  on_exec := fun _ => inl e;
  on_streams := on_streams base;
  on_wait := on_wait base;
  on_terminate := on_terminate base;
  on_poll := on_poll base;
  on_tunnels := on_tunnels base;
  on_open := on_open base;
  on_read := on_read base;
  on_write := on_write base;
  on_close := on_close base
|}.

(** As [base], but opening a file fails with [e]. *)
Definition open_fails (e : Js.Thrown) (base : Scenario) : Scenario := {|
  on_create := on_create base;
  on_exec := on_exec base;
  on_streams := on_streams base;
  on_wait := on_wait base;
  on_terminate := on_terminate base;
  on_poll := on_poll base;
  on_tunnels := on_tunnels base;
  on_open := inl e;
  on_read := on_read base;
  on_write := on_write base;
  on_close := on_close base
|}.

(** The handle of the examples: sandbox object 1. *)
Definition a_sandbox : ModalSandbox :=
  {| sandbox := 1%N; sandboxId := "sb-1" |}.

(** Options whose values hold quotes, expansions and separators. *)
Definition hostile_options : RunCommandOptions := {|
  opt_env := Some [("A", "1"); ("B", "$(id)`id`" ++ Js.dq ++ ";id")];
  opt_cwd := Some ("/tmp" ++ Js.dq ++ "; rm -rf $HOME; " ++ Js.dq);
  opt_background := None
|}.

(** ** Hosts of the examples *)

(** Tunnels on ports 8080 and 3000. *)
Definition tunnel_host : Host Z :=
  scenario_host
    (calm "" "" 0 ""
       [ (8080%N, "https://ab.modal.host:80/x");
         (3000%N, "https://cd.modal.host:8443/app?x=1") ]).



(** The process runs and exits with status 3. *)
Definition exit3_host : Host Z :=
  scenario_host (calm "partial" "Traceback: boom" 3 "" []).

(** No process can be started. *)
Definition exec_failure_host : Host Z :=
  scenario_host
    (exec_fails (Js.JsError "connection reset") (calm "" "" 0 "" [])).

(** The file API is unavailable; [cat] prints the text and exits with
    [code]. *)
Definition no_file_api_host (text : string) (code : Z) : Host Z :=
  scenario_host
    (open_fails (Js.JsValue "open is not supported")
       (calm text "cat: cannot read" code "" [])).

(** The file API works and the file holds [text]. *)
Definition file_host (text : string) : Host Z :=
  scenario_host (calm "" "" 0 text []).




(** ** Vocabulary of the statements *)

(** In a trace, every call that runs a process comes after a call of the
    file API that threw. *)
Definition process_calls_follow_file_failure (tr : Trace) : Prop :=
  forall i c r,
    nth_error tr i = Some (c, r) -> is_process_call c = true ->
    exists j c0 e0,
      (j < i)%nat /\ nth_error tr j = Some (c0, inl e0)
      /\ is_file_call c0 = true.

(** A step of the fallback that failed: a call that runs a process threw,
    or the process was waited for and exited with another status than 0. *)
Definition failed_step (ev : Event) : bool :=
  match ev with
  | (c, inl _) => is_process_call c
  | (CWait _, inr (VExit n)) => negb (Z.eqb n 0)
  | _ => false
  end.

Definition fallback_failed (tr : Trace) : bool := existsb failed_step tr.

(** In a trace, the event after a call of the file API that threw is the
    start of the process [argv] in the sandbox [sb], with piped streams. *)
Definition fallback_starts_after_failure (sb : Sandbox) (argv : list string)
    (tr : Trace) : Prop :=
  forall i c e,
    nth_error tr i = Some (c, inl e) -> is_file_call c = true ->
    exists r, nth_error tr (S i) = Some (CExec sb argv true, r).

(** A character other than the colon. *)
Definition not_colon (c : ascii) : bool := negb (Ascii.eqb c ":").

(** The status that [getInfo] derives from the outcome of [poll]. *)
Definition status_of_poll (r : Js.Thrown + Value) : Status :=
  match r with
  | inr (VPoll (Some code)) => if Z.eqb code 0 then stopped else error
  | _ => running
  end.


(** [m] occurs in [s], at any position. *)
Definition occurs_in (m s : string) : Prop :=
  exists before after, s = before ++ m ++ after.

(** Some marker of the list occurs in the code. *)
Definition has_marker (code : string) (markers : list string) : Prop :=
  exists m, In m markers /\ occurs_in m code.

(** ** More ECMAScript built-ins *)

Module JsText.

(** [s.split('\n')] *)
Definition split_lines (s : string) : list string :=
  UrlSubset.split_on Js.c_nl s.

(** [s.split(/\s+/)]: the pieces between the maximal runs of white space;
    white space at either end leaves an empty piece there. *)
Fixpoint split_ws (s : string) : list string :=
  match s with
  | EmptyString => [EmptyString]
  | String c s' =>
      if Js.is_space c then
        match s' with
        | EmptyString => [EmptyString; EmptyString]
        | String d _ =>
            if Js.is_space d then split_ws s' else EmptyString :: split_ws s'
        end
      else
        match split_ws s' with
        | h :: t => String c h :: t
        | [] => [String c EmptyString]
        end
  end.

(** The value of a character as a digit in the given radix (10 or 16). *)
Definition digit_in (radix : N) (c : ascii) : option N :=
  let n := nat_of_ascii c in
  let v :=
    if Url.is_digit c then Some (N.of_nat (n - 48))
    else if ((97 <=? n) && (n <=? 102))%nat then Some (N.of_nat (n - 87))
    else if ((65 <=? n) && (n <=? 70))%nat then Some (N.of_nat (n - 55))
    else None in
  match v with
  | Some d => if (d <? radix)%N then Some d else None
  | None => None
  end.

(** The value of the longest prefix of digits, read after [acc]; [seen]
    tells whether a digit was read already.  [None] when there is none. *)
Fixpoint digits_prefix (radix : N) (seen : bool) (acc : N) (s : string)
    : option N :=
  match s with
  | EmptyString => if seen then Some acc else None
  | String c s' =>
      match digit_in radix c with
      | Some d => digits_prefix radix true (radix * acc + d) s'
      | None => if seen then Some acc else None
      end
  end.

(** [parseInt(s)] without a radix: leading white space, a sign, [0x] or
    [0X] for radix 16, then the longest prefix of digits; [None] is [NaN].
    The integer is exact; the platform rounds it to a double, which changes
    nothing below 2^53. *)
Definition parseInt (s : string) : option Z :=
  let s1 := Js.trim_start s in
  let '(negative, s2) :=
    match s1 with
    | String "-" r => (true, r)
    | String "+" r => (false, r)
    | _ => (false, s1)
    end in
  let '(radix, s3) :=
    match s2 with
    | String "0" (String x r) =>
        if Ascii.eqb x "x" || Ascii.eqb x "X" then (16%N, r) else (10%N, s2)
    | _ => (10%N, s2)
    end in
  match digits_prefix radix false 0 s3 with
  | Some v => Some (if negative then (- Z.of_N v)%Z else Z.of_N v)
  | None => None
  end.

(** [parts[i] || '']: a missing piece and an empty piece both give ['']. *)
Definition at_or_empty (parts : list string) (i : nat) : string :=
  match nth_error parts i with
  | Some p => p
  | None => EmptyString
  end.

End JsText.

(** ** Filesystem operations that only run a utility *)

Inductive EntryType : Type := file | directory.

(** [FileEntry]; [modified] is the time value of the date. *)
Record FileEntry : Type := {
  entry_name : string;
  entry_type : EntryType;
  entry_size : Z;
  entry_modified : Z
}.

Section Utilities.

Context {W : Type} (H : Host W).

(** [new Date(text)]: the time value, or [None] for an invalid date.  How
    a text that is not in the ISO format is read is left to the platform. *)
Variable date_parse : string -> option Z.

Definition mkdir (modalSandbox : ModalSandbox) (path : string)
    : Async W unit :=
  try_catch
    (process <- exec H (sandbox modalSandbox) ["mkdir"; "-p"; path] true ;;
     '(_, err) <- readStreams H process ;;
     code <- wait H process ;;
     if negb (Z.eqb code 0) then throw (Js.JsError ("mkdir failed: " ++ err))
     else ret tt)
    (fun error =>
       throw (Js.JsError ("Failed to create directory " ++ path ++ ": "
                          ++ Js.error_text error))).

Definition remove (modalSandbox : ModalSandbox) (path : string)
    : Async W unit :=
  try_catch
    (process <- exec H (sandbox modalSandbox) ["rm"; "-rf"; path] true ;;
     '(_, err) <- readStreams H process ;;
     code <- wait H process ;;
     if negb (Z.eqb code 0) then throw (Js.JsError ("rm failed: " ++ err))
     else ret tt)
    (fun error =>
       throw (Js.JsError ("Failed to remove " ++ path ++ ": "
                          ++ Js.error_text error))).

(** [parts.slice(8).join(' ') || parts[parts.length - 1] || 'unknown'] *)
Definition entry_name_of (parts : list string) : string :=
  or_string (Js.join " " (skipn 8 parts))
    (or_string (last parts EmptyString) "unknown").

(** The body of the [map] of [readdir], at time [t]. *)
Definition parse_entry (t : Z) (line : string) : FileEntry :=
  let parts := JsText.split_ws (Js.trim line) in
  let permissions := JsText.at_or_empty parts 0 in
  let size :=
    match nth_error parts 4 with
    | Some p =>
        match JsText.parseInt p with
        | Some n => or_number n 0
        | None => 0%Z
        end
    | None => 0%Z
    end in
  let dateStr :=
    JsText.at_or_empty parts 5 ++ " " ++ JsText.at_or_empty parts 6 in
  let date :=
    match Js.trim dateStr with
    | EmptyString => Some t
    | _ => date_parse dateStr
    end in
  {| entry_name := entry_name_of parts;
     entry_type :=
       if Js.starts_with "d" permissions then directory else file;
     entry_size := size;
     entry_modified := match date with Some d => d | None => t end |}.

(** [output.split('\n').slice(1)], then the [filter] and the [map]. *)
Definition parse_listing (t : Z) (output : string) : list FileEntry :=
  map (parse_entry t)
    (filter (fun line => negb (String.eqb (Js.trim line) ""))
       (tl (JsText.split_lines output))).

Definition readdir (modalSandbox : ModalSandbox) (path : string)
    : Async W (list FileEntry) :=
  try_catch
    (process <- exec H (sandbox modalSandbox) ["ls"; "-la"; path] true ;;
     '(output, err) <- readStreams H process ;;
     code <- wait H process ;;
     if negb (Z.eqb code 0) then throw (Js.JsError ("ls failed: " ++ err))
     else
       t <- date_now H ;;
       ret (parse_listing t output))
    (fun error =>
       throw (Js.JsError ("Failed to read directory " ++ path ++ ": "
                          ++ Js.error_text error))).

End Utilities.

(** ** Lifecycle: [create], [getById] and [destroy]

    These operations talk to the entry points of the SDK.  They are
    embedded in the same kind of monad as the sandbox operations, over the
    calls they make. *)

Module Lifecycle.

(** [ModalConfig] *)
Record ModalConfig : Type := {
  tokenId : option string;
  tokenSecret : option string;
  runtime : option Runtime;
  timeout : option Z;
  environment : option string;
  ports : option (list N)
}.

(** The part of [CreateSandboxOptions] that [create] reads. *)
Record CreateSandboxOptions : Type := {
  co_sandboxId : option string;
  co_image : option string;
  co_ports : option (list N)
}.

(** [process.env], when there is a [process]. *)
Record ProcessEnv : Type := {
  MODAL_TOKEN_ID : option string;
  MODAL_TOKEN_SECRET : option string
}.

(** The [sandboxOptions] object handed to [app.createSandbox]. *)
Record SandboxOptions : Type := {
  unencryptedPorts : option (list N);
  so_timeout : option Z
}.

(** What [create] and [getById] return. *)
Record Provisioned : Type := {
  handle : ModalSandbox;
  handle_id : string
}.

Inductive LCall : Type :=
| LInitializeClient (tokenId tokenSecret : option string)
| LFromId (id : string)
| LAppLookup (name : string)
| LImageFromRegistry (app : App) (name : string)
| LCreateSandbox (app : App) (image : Image) (options : SandboxOptions)
| LTerminate (sb : Sandbox).

(** A call and what it threw, if it did. *)
Definition LEvent : Type := LCall * option Js.Thrown.
Definition Log : Type := list LEvent.

(** The entry points of the SDK, as a state machine, and what the code
    reads of a sandbox object: its [sandboxId], and whether it is an object
    with a [terminate] method. *)
Record Sdk (W : Type) : Type := {
  initialize_client : option string -> option string -> W -> W * (Js.Thrown + unit);
  from_id : string -> W -> W * (Js.Thrown + Sandbox);
  lookup : string -> W -> W * (Js.Thrown + App);
  from_registry : App -> string -> W -> W * (Js.Thrown + Image);
  create_with : App -> Image -> SandboxOptions -> W -> W * (Js.Thrown + Sandbox);
  terminate_sandbox : Sandbox -> W -> W * (Js.Thrown + unit);
  id_of : Sandbox -> string;
  can_terminate : Sandbox -> bool
}.

Arguments initialize_client {W}.
Arguments from_id {W}.
Arguments lookup {W}.
Arguments from_registry {W}.
Arguments create_with {W}.
Arguments terminate_sandbox {W}.
Arguments id_of {W}.
Arguments can_terminate {W}.

Definition Life (W A : Type) : Type := W * Log -> Outcome A * (W * Log).

Definition ret {W A} (a : A) : Life W A := fun st => (Returned a, st).

Definition throw {W A} (e : Js.Thrown) : Life W A := fun st => (Threw e, st).

Definition bind {W A B} (m : Life W A) (k : A -> Life W B) : Life W B :=
  fun st =>
    match m st with
    | (Returned a, st') => k a st'
    | (Threw e, st') => (Threw e, st')
    end.

Definition try_catch {W A} (m : Life W A) (handler : Js.Thrown -> Life W A)
    : Life W A :=
  fun st =>
    match m st with
    | (Returned a, st') => (Returned a, st')
    | (Threw e, st') => handler e st'
    end.

(** One call to the SDK, recorded with what it threw. *)
Definition request {W A} (c : LCall) (step : W -> W * (Js.Thrown + A))
    : Life W A :=
  fun st =>
    let '(w, log) := st in
    match step w with
    | (w', inl e) => (Threw e, (w', (log ++ [(c, Some e)])%list))
    | (w', inr a) => (Returned a, (w', (log ++ [(c, None)])%list))
    end.

Definition run {W A} (m : Life W A) (w : W) : Outcome A * (W * Log) :=
  m (w, []).

Declare Scope life_scope.
Delimit Scope life_scope with life.
Notation "x <- m ;; k" := (bind m (fun x => k))
  (at level 100, m at next level, right associativity) : life_scope.
Notation "m ;; k" := (bind m (fun _ => k))
  (at level 100, right associativity) : life_scope.
Local Open Scope life_scope.

(** [a || b] on optional strings: the empty string is falsy. *)
Definition or_else (a b : option string) : option string :=
  match a with
  | Some (String _ _) => a
  | _ => b
  end.

(** [x || ''] *)
Definition or_empty (a : option string) : string :=
  match a with
  | Some s => s
  | None => EmptyString
  end.

(** [(typeof process !== 'undefined' && process.env?.NAME)] *)
Definition guarded_env (penv : option ProcessEnv)
    (name : ProcessEnv -> option string) : option string :=
  match penv with
  | Some env => name env
  | None => None
  end.

Definition missing_credentials : string :=
  "Missing Modal API credentials. Provide 'tokenId' and 'tokenSecret' in config or set MODAL_TOKEN_ID and MODAL_TOKEN_SECRET environment variables. Get your credentials from https://modal.com/".

Definition authentication_failed : string :=
  "Modal authentication failed. Please check your MODAL_TOKEN_ID and MODAL_TOKEN_SECRET environment variables. Get your credentials from https://modal.com/".

Definition quota_exceeded : string :=
  "Modal quota exceeded. Please check your usage at https://modal.com/".

(** [ports && ports.length > 0] *)
Definition exposed (ports : option (list N)) : option (list N) :=
  match ports with
  | Some ((_ :: _) as l) => Some l
  | _ => None
  end.

(** [a ?? b] *)
Definition nullish {A} (a b : option A) : option A :=
  match a with
  | Some _ => a
  | None => b
  end.

(** [if (config.timeout)]: zero is falsy. *)
Definition truthy_number (n : option Z) : option Z :=
  match n with
  | Some v => if Z.eqb v 0 then None else Some v
  | None => None
  end.

Section Operations.

Context {W : Type} (S : Sdk W).

(** The [try] block of [create]. *)
Definition create_try (config : ModalConfig)
    (options : option CreateSandboxOptions) (id secret : string)
    : Life W Provisioned :=
  request (LInitializeClient (Some id) (Some secret))
    (initialize_client S (Some id) (Some secret)) ;;
  match match options with Some o => co_sandboxId o | None => None end with
  | Some ((String _ _) as requested) =>
      sb <- request (LFromId requested) (from_id S requested) ;;
      ret {| handle := {| sandbox := sb; sandboxId := requested |};
             handle_id := requested |}
  | _ =>
      app <- request (LAppLookup "computesdk-modal")
               (lookup S "computesdk-modal") ;;
      let imageName :=
        match match options with Some o => co_image o | None => None end with
        | Some i => i
        | None => "node:20"
        end in
      img <- request (LImageFromRegistry app imageName)
               (from_registry S app imageName) ;;
      let sandboxOptions :=
        {| unencryptedPorts :=
             exposed (nullish
                        (match options with
                         | Some o => co_ports o
                         | None => None
                         end)
                        (ports config));
           so_timeout := truthy_number (timeout config) |} in
      sb <- request (LCreateSandbox app img sandboxOptions)
              (create_with S app img sandboxOptions) ;;
      ret {| handle := {| sandbox := sb;
                          sandboxId := id_of S sb |};
             handle_id := id_of S sb |}
  end.

(** The [catch] block of [create]. *)
Definition create_catch {A} (error : Js.Thrown) : Life W A :=
  if is_error_including error "unauthorized"
     || is_error_including error "credentials"
  then throw (Js.JsError authentication_failed)
  else if is_error_including error "quota"
          || is_error_including error "limit"
  then throw (Js.JsError quota_exceeded)
  else throw (Js.JsError ("Failed to create Modal sandbox: "
                          ++ Js.error_text error)).

Definition create (penv : option ProcessEnv) (config : ModalConfig)
    (options : option CreateSandboxOptions) : Life W Provisioned :=
  let id :=
    or_empty (or_else (or_else (tokenId config)
                         (guarded_env penv MODAL_TOKEN_ID))
                (Some "")) in
  let secret :=
    or_empty (or_else (or_else (tokenSecret config)
                         (guarded_env penv MODAL_TOKEN_SECRET))
                (Some "")) in
  match id, secret with
  | String _ _, String _ _ =>
      try_catch (create_try config options id secret) create_catch
  | _, _ => throw (Js.JsError missing_credentials)
  end.

(** [config.tokenId || process.env.NAME]: reading [process.env] where
    there is no [process] throws a [ReferenceError]. *)
Definition or_env (configured : option string) (penv : option ProcessEnv)
    (name : ProcessEnv -> option string) : Js.Thrown + option string :=
  match configured with
  | Some (String _ _) => inr configured
  | _ =>
      match penv with
      | Some env => inr (name env)
      | None => inl (Js.JsError "process is not defined")
      end
  end.

Definition raise_or {A} (r : Js.Thrown + A) : Life W A :=
  match r with
  | inl e => throw e
  | inr a => ret a
  end.

(** [getById]; [None] is [null]. *)
Definition getById (penv : option ProcessEnv) (config : ModalConfig)
    (id : string) : Life W (option Provisioned) :=
  token <- raise_or (or_env (tokenId config) penv MODAL_TOKEN_ID) ;;
  secret <- raise_or (or_env (tokenSecret config) penv MODAL_TOKEN_SECRET) ;;
  try_catch
    (request (LInitializeClient token secret)
       (initialize_client S token secret) ;;
     sb <- request (LFromId id) (from_id S id) ;;
     ret (Some {| handle := {| sandbox := sb; sandboxId := id |};
                  handle_id := id |}))
    (fun _ => ret None).

Definition destroy (config : ModalConfig) (id : string) : Life W unit :=
  try_catch
    (sb <- request (LFromId id) (from_id S id) ;;
     if can_terminate S sb then
       request (LTerminate sb) (terminate_sandbox S sb)
     else ret tt)
    (fun _ => ret tt).

End Operations.

End Lifecycle.

(** ** More hosts of the examples *)

(** The process exits with status 0 and a warning on [stderr]. *)
Definition warning_host : Host Z :=
  scenario_host (calm "ok" "SyntaxError: only a warning" 0 "" []).

(** As [base], but [open] resolves to [fo]. *)
Definition open_gives (fo : option FileObject) (base : Scenario)
    : Scenario := {|
  on_create := on_create base;
  on_exec := on_exec base;
  on_streams := on_streams base;
  on_wait := on_wait base;
  on_terminate := on_terminate base;
  on_poll := on_poll base;
  on_tunnels := on_tunnels base;
  on_open := inr fo;
  on_read := on_read base;
  on_write := on_write base;
  on_close := on_close base
|}.

(** A file object that can only be closed. *)
Definition opaque_file : FileObject :=
  {| file_ref := 6; has_read := false; has_write := false;
     has_close := true |}.

Definition opaque_file_host : Host Z :=
  scenario_host (open_gives (Some opaque_file) (calm "" "" 0 "" [])).

(** The lines that [ls -la] prints for a directory with one file. *)
Definition listing_lines : list string :=
  [ "drwxr-xr-x    2 root     root          4096 Nov  3 04:08 .";
    "drwxr-xr-x    1 root     root          4096 Nov  3 04:08 ..";
    "-rw-r--r--    1 root     root            12 Nov  3 04:08 notes.txt";
    "" ].

Definition listing_host : Host Z :=
  scenario_host
    (calm (Js.join Js.nl ("total 8" :: listing_lines)) "" 0 "" []).

(** A platform that reads no date. *)
Definition no_date (text : string) : option Z := None.

(** The gaps and pieces, after the first, of the line of a file whose name
    holds two spaces in a row. *)
Definition spaced_name_line : list (string * string) :=
  [ ("    ", "1"); (" ", "root"); ("     ", "root"); ("          ", "12");
    (" ", "Nov"); ("  ", "3"); (" ", "04:08"); (" ", "my");
    ("  ", "file.txt") ].

(** An SDK whose answers are fixed in advance; every call takes one
    millisecond. *)
Record SdkScenario : Type := {
  on_initialize : Js.Thrown + unit;
  on_from_id : Js.Thrown + Sandbox;
  on_create_with : Js.Thrown + Sandbox;
  on_terminate_sandbox : Js.Thrown + unit
}.

Definition scenario_sdk (s : SdkScenario) : Lifecycle.Sdk Z := {|
  Lifecycle.initialize_client := fun _ _ => tick (on_initialize s);
  Lifecycle.from_id := fun _ => tick (on_from_id s);
  Lifecycle.lookup := fun _ => tick (inr 1%N);
  Lifecycle.from_registry := fun _ _ => tick (inr 2%N);
  Lifecycle.create_with := fun _ _ _ => tick (on_create_with s);
  Lifecycle.terminate_sandbox := fun _ => tick (on_terminate_sandbox s);
  Lifecycle.id_of := fun sb => "sb-" ++ Url.decimal sb;
  Lifecycle.can_terminate := fun _ => true
|}.

(** Every call goes through. *)
Definition friendly_sdk : Lifecycle.Sdk Z :=
  scenario_sdk {| on_initialize := inr tt; on_from_id := inr 4%N;
                  on_create_with := inr 9%N;
                  on_terminate_sandbox := inr tt |}.

(** The service rejects the token, and mentions a limit while doing so. *)
Definition rejecting_sdk : Lifecycle.Sdk Z :=
  scenario_sdk
    {| on_initialize := inr tt;
       on_from_id := inl (Js.JsError "unauthorized: rate limit reached");
       on_create_with :=
         inl (Js.JsError "unauthorized: rate limit reached");
       on_terminate_sandbox := inl (Js.JsValue "gone") |}.

Definition a_config : Lifecycle.ModalConfig := {|
  Lifecycle.tokenId := Some "ak-1";
  Lifecycle.tokenSecret := Some "as-1";
  Lifecycle.runtime := None;
  Lifecycle.timeout := Some 0%Z;
  Lifecycle.environment := None;
  Lifecycle.ports := Some [3000%N]
|}.

(** A configuration without tokens. *)
Definition bare_config : Lifecycle.ModalConfig := {|
  Lifecycle.tokenId := None;
  Lifecycle.tokenSecret := None;
  Lifecycle.runtime := None;
  Lifecycle.timeout := None;
  Lifecycle.environment := None;
  Lifecycle.ports := None
|}.

Definition an_env : Lifecycle.ProcessEnv := {|
  Lifecycle.MODAL_TOKEN_ID := Some "ak-env";
  Lifecycle.MODAL_TOKEN_SECRET := None
|}.

(** Options that ask for an existing sandbox. *)
Definition reconnect_options : Lifecycle.CreateSandboxOptions := {|
  Lifecycle.co_sandboxId := Some "sb-4";
  Lifecycle.co_image := None;
  Lifecycle.co_ports := None
|}.

(** Options that expose no port. *)
Definition no_port_options : Lifecycle.CreateSandboxOptions := {|
  Lifecycle.co_sandboxId := None;
  Lifecycle.co_image := Some "python:3.13-slim";
  Lifecycle.co_ports := Some []
|}.

(** ** Vocabulary of the further statements *)

(** A piece of a listing line: not empty and free of white space. *)
Definition is_token (s : string) : bool :=
  negb (String.eqb s "") && Url.all_chars (fun c => negb (Js.is_space c)) s.

(** A gap between two pieces: white space, at least one character. *)
Definition is_gap (s : string) : bool :=
  negb (String.eqb s "") && Url.all_chars Js.is_space s.

(** A first piece followed by gaps and pieces. *)
Fixpoint glue (first : string) (rest : list (string * string)) : string :=
  match rest with
  | [] => first
  | (gap, piece) :: rest' => first ++ gap ++ glue piece rest'
  end.

Definition well_formed (rest : list (string * string)) : Prop :=
  Forall (fun gp => is_gap (fst gp) = true /\ is_token (snd gp) = true) rest.

(** A line: a text without a line feed. *)
Definition is_line (s : string) : bool :=
  Url.all_chars (fun c => negb (Ascii.eqb c Js.c_nl)) s.

(** A line that the [filter] of [readdir] keeps. *)
Definition kept (line : string) : bool := negb (String.eqb (Js.trim line) "").

(** A text without backslash, dollar sign and backtick. *)
Definition is_tame (s : string) : bool :=
  Url.all_chars
    (fun c => negb (Ascii.eqb c Js.c_bslash || Ascii.eqb c Js.c_dollar
                    || Ascii.eqb c Js.c_btick)) s.

(** A token is configured or found in the environment. *)
Definition has_credential (configured found : option string) : bool :=
  match Lifecycle.or_else configured found with
  | Some (String _ _) => true
  | _ => false
  end.

(** * Properties *)

(** ** Strings *)

Module StringFacts.

Lemma append_assoc (a b c : string) : (a ++ b) ++ c = a ++ (b ++ c).
Proof. induction a as [|x a IH]; simpl; [reflexivity | now rewrite IH]. Qed.

Lemma append_empty_r (a : string) : a ++ "" = a.
Proof. induction a as [|x a IH]; simpl; [reflexivity | now rewrite IH]. Qed.

Lemma starts_with_spec (p s : string) :
  Js.starts_with p s = true <-> exists after, s = p ++ after.
Proof.
  revert s. induction p as [|a p IH]; intros s; simpl.
  - split; [intros _; now exists s | reflexivity].
  - destruct s as [|b s].
    + split; [discriminate | intros [after E]; discriminate].
    + destruct (Ascii.eqb_spec a b) as [->|Hne].
      * rewrite IH. split; intros [after E]; exists after.
        -- now rewrite E.
        -- now inversion E.
      * split; [discriminate | intros [after E]; inversion E; congruence].
Qed.

Lemma includes_spec (s m : string) :
  Js.includes s m = true <-> occurs_in m s.
Proof.
  induction s as [|a s IH].
  - simpl. destruct (Js.starts_with m "") eqn:E.
    + split; [intros _ | reflexivity].
      apply starts_with_spec in E. destruct E as [after E].
      exists "", after. exact E.
    + split; [discriminate |].
      intros [before [after E']]. destruct before; [|discriminate].
      assert (Js.starts_with m "" = true)
        by (apply starts_with_spec; now exists after).
      congruence.
  - cbn [Js.includes]. destruct (Js.starts_with m (String a s)) eqn:E.
    + split; [intros _ | reflexivity].
      apply starts_with_spec in E. destruct E as [after E].
      exists "", after. exact E.
    + rewrite IH. split.
      * intros [before [after E']]. exists (String a before), after.
        simpl. now rewrite E'.
      * intros [before [after E']]. destruct before as [|b before].
        -- assert (Js.starts_with m (String a s) = true)
             by (apply starts_with_spec; now exists after).
           congruence.
        -- inversion E'. now exists before, after.
Qed.

Lemma includes_any_spec (code : string) (markers : list string) :
  includes_any code markers = true <-> has_marker code markers.
Proof.
  unfold includes_any, has_marker. rewrite existsb_exists.
  split; intros [m [Hin Hm]]; exists m; split; auto;
    now apply includes_spec.
Qed.

Lemma includes_any_false (code : string) (markers : list string) :
  includes_any code markers = false <-> ~ has_marker code markers.
Proof.
  rewrite <- includes_any_spec.
  destruct (includes_any code markers); split; congruence.
Qed.

End StringFacts.

(** ** Runtime detection *)

(** C5. [detectRuntime] is a function of the text alone.  A text in which a
    Node marker occurs, at any position and whatever else it holds, is
    tagged [node]; a text in which a Python marker occurs and no Node marker
    does is tagged [python]; a text with no marker of either family is
    tagged [node], the default. *)
Theorem detectRuntime_by_markers (code : string) :
  (has_marker code node_markers -> detectRuntime code = node)
  /\ (has_marker code python_markers -> ~ has_marker code node_markers ->
      detectRuntime code = python)
  /\ (~ has_marker code node_markers -> ~ has_marker code python_markers ->
      detectRuntime code = node).
Proof.
  unfold detectRuntime. repeat split.
  - intros Hn. apply StringFacts.includes_any_spec in Hn. now rewrite Hn.
  - intros Hp Hn.
    apply StringFacts.includes_any_spec in Hp.
    apply StringFacts.includes_any_false in Hn.
    now rewrite Hn, Hp.
  - intros Hn Hp.
    apply StringFacts.includes_any_false in Hn.
    apply StringFacts.includes_any_false in Hp.
    now rewrite Hn, Hp.
Qed.

Lemma detectRuntime_by_markers_witness :
  detectRuntime "const fs = require('fs'); print(1)" = node
  /\ detectRuntime "x = 1; print(x)" = python
  /\ detectRuntime "1 + 1" = node.
Proof.
  split; [|split].
  - apply (proj1 (detectRuntime_by_markers _)).
    exists "require(". split; [simpl; tauto |].
    now exists "const fs = ", "'fs'); print(1)".
  - apply (proj1 (proj2 (detectRuntime_by_markers _))).
    + exists "print(". split; [simpl; tauto |]. now exists "x = 1; ", "x)".
    + apply StringFacts.includes_any_false. reflexivity.
  - apply (proj2 (proj2 (detectRuntime_by_markers _)));
      apply StringFacts.includes_any_false; reflexivity.
Defined.

(** ** Command composition and quoting *)

Module ShellFacts.

Import StringFacts.

Lemma replace_char_app (c : ascii) (r a b : string) :
  replace_char c r (a ++ b) = replace_char c r a ++ replace_char c r b.
Proof.
  induction a as [|x a IH]; simpl; [reflexivity |].
  destruct (Ascii.eqb x c); rewrite IH; [now rewrite append_assoc | reflexivity].
Qed.

(** The four replacements amount to one pass over the characters. *)
Lemma escapeShellArg_cons (a : ascii) (s : string) :
  escapeShellArg (String a s)
  = (if Sh.escapable a then String Js.c_bslash (String a "") else String a "")
    ++ escapeShellArg s.
Proof.
  unfold Sh.escapable.
  destruct (Ascii.eqb a Js.c_dollar) eqn:E3;
    [apply Ascii.eqb_eq in E3; subst; reflexivity |].
  destruct (Ascii.eqb a Js.c_btick) eqn:E4;
    [apply Ascii.eqb_eq in E4; subst; reflexivity |].
  destruct (Ascii.eqb a Js.c_dq) eqn:E2;
    [apply Ascii.eqb_eq in E2; subst; reflexivity |].
  destruct (Ascii.eqb a Js.c_bslash) eqn:E1;
    [apply Ascii.eqb_eq in E1; subst; reflexivity |].
  unfold escapeShellArg.
  cbn [replace_char]. rewrite E1.
  cbn [replace_char]. rewrite E2.
  cbn [replace_char]. rewrite E3.
  cbn [replace_char]. rewrite E4.
  reflexivity.
Qed.

Lemma sh_dquote_escaped (d : ascii) (rest : string) :
  Sh.escapable d = true ->
  Sh.sh_dquote (String Js.c_bslash (String d rest))
  = Sh.cons_fst d (Sh.sh_dquote rest).
Proof. intros E. cbn [Sh.sh_dquote]. rewrite E. reflexivity. Qed.

Lemma sh_dquote_plain (c : ascii) (rest : string) :
  Sh.escapable c = false ->
  Sh.sh_dquote (String c rest) = Sh.cons_fst c (Sh.sh_dquote rest).
Proof.
  intros E. unfold Sh.escapable in E.
  apply orb_false_iff in E. destruct E as [E E1].
  apply orb_false_iff in E. destruct E as [E E2].
  apply orb_false_iff in E. destruct E as [E3 E4].
  cbn [Sh.sh_dquote]. rewrite E1, E2, E3, E4. reflexivity.
Qed.

Lemma sh_dquote_escapeShellArg (v tail : string) :
  Sh.sh_dquote (escapeShellArg v ++ Js.dq ++ tail) = Some (v, tail).
Proof.
  induction v as [|a v IH].
  - reflexivity.
  - rewrite escapeShellArg_cons. destruct (Sh.escapable a) eqn:E.
    + cbn [append]. rewrite (sh_dquote_escaped _ _ E), IH. reflexivity.
    + cbn [append]. rewrite (sh_dquote_plain _ _ E), IH. reflexivity.
Qed.

Lemma join_middle (sep x : string) (l1 l2 : list string) :
  Js.join sep (l1 ++ x :: l2)%list
  = match l1 with [] => "" | _ => Js.join sep l1 ++ sep end
    ++ x
    ++ match l2 with [] => "" | _ => sep ++ Js.join sep l2 end.
Proof.
  induction l1 as [|y l1 IH].
  - destruct l2; simpl; [now rewrite append_empty_r | reflexivity].
  - destruct l1 as [|z l1].
    + clear IH. destruct l2; cbn [app Js.join];
        rewrite ?append_assoc, ?append_empty_r; reflexivity.
    + change (Js.join sep ((y :: z :: l1) ++ x :: l2)%list)
        with (y ++ sep ++ Js.join sep ((z :: l1) ++ x :: l2)%list).
      rewrite IH.
      change (Js.join sep (y :: z :: l1))
        with (y ++ sep ++ Js.join sep (z :: l1)).
      rewrite !append_assoc. reflexivity.
Qed.

End ShellFacts.

(** C1. In the string that [runCommand] hands to [sh -c], the working
    directory and every environment value stand between double quotes, and
    the shell reads each of them back as the very text that was given: the
    quoted part ends at the quote written by [runCommand] and nowhere
    before, no expansion starts inside it, and what follows it does not
    depend on the value.  This holds for every path and every value,
    whatever characters they hold. *)
Theorem runCommand_values_stay_quoted (command : string)
    (o : RunCommandOptions) :
  (forall dir, opt_cwd o = Some dir -> dir <> "" ->
     let rest := " && " ++ with_env (opt_env o) command in
     fullCommand command (Some o)
     = with_background (opt_background o)
         ("cd " ++ Js.dq ++ escapeShellArg dir ++ Js.dq ++ rest)
     /\ Sh.sh_dquote (escapeShellArg dir ++ Js.dq ++ rest) = Some (dir, rest))
  /\ (forall es1 k v es2, opt_env o = Some (es1 ++ (k, v) :: es2)%list ->
     let lead := match es1 with [] => "" | _ => envPrefix es1 ++ " " end in
     let rest :=
       match es2 with [] => "" | _ => " " ++ envPrefix es2 end
       ++ " " ++ command in
     fullCommand command (Some o)
     = with_background (opt_background o)
         (with_cwd (opt_cwd o)
            (lead ++ k ++ "=" ++ Js.dq ++ escapeShellArg v ++ Js.dq ++ rest))
     /\ Sh.sh_dquote (escapeShellArg v ++ Js.dq ++ rest) = Some (v, rest)).
Proof.
  split.
  - intros dir Hcwd Hne rest. split.
    + unfold fullCommand. rewrite Hcwd. destruct dir; [congruence | reflexivity].
    + apply ShellFacts.sh_dquote_escapeShellArg.
  - intros es1 k v es2 Henv lead rest. split.
    + unfold fullCommand. rewrite Henv. do 2 f_equal.
      assert (E : with_env (Some (es1 ++ (k, v) :: es2)%list) command
                  = envPrefix (es1 ++ (k, v) :: es2)%list ++ " " ++ command)
        by (destruct es1; reflexivity).
      rewrite E. unfold envPrefix. rewrite map_app. cbn [map].
      rewrite ShellFacts.join_middle.
      unfold lead, rest, envPrefix, env_assignment. cbn [fst snd].
      destruct es1, es2; cbn [map];
        rewrite ?StringFacts.append_assoc; reflexivity.
    + apply ShellFacts.sh_dquote_escapeShellArg.
Qed.

Lemma runCommand_values_stay_quoted_witness :
  Sh.sh_dquote
    (escapeShellArg ("/tmp" ++ Js.dq ++ "; rm -rf $HOME; " ++ Js.dq) ++ Js.dq
     ++ " && " ++ with_env (opt_env hostile_options) "ls")
  = Some ("/tmp" ++ Js.dq ++ "; rm -rf $HOME; " ++ Js.dq,
          " && " ++ with_env (opt_env hostile_options) "ls")
  /\ Sh.sh_dquote
       (escapeShellArg ("$(id)`id`" ++ Js.dq ++ ";id") ++ Js.dq ++ " ls")
     = Some ("$(id)`id`" ++ Js.dq ++ ";id", " ls").
Proof.
  split.
  - apply (proj1 (runCommand_values_stay_quoted "ls" hostile_options)
             ("/tmp" ++ Js.dq ++ "; rm -rf $HOME; " ++ Js.dq));
      [reflexivity | discriminate].
  - apply (proj2 (runCommand_values_stay_quoted "ls" hostile_options)
             [("A", "1")] "B" ("$(id)`id`" ++ Js.dq ++ ";id") []).
    reflexivity.
Defined.

(** ** Operations *)

Module TrimFacts.

Lemma trim_start_head (s : string) (c : ascii) (rest : string) :
  Js.trim_start s = String c rest -> Js.is_space c = false.
Proof.
  induction s as [|a s IH]; cbn [Js.trim_start]; [discriminate |].
  destruct (Js.is_space a) eqn:E; [exact IH |].
  intros Heq. inversion Heq. now subst.
Qed.




End TrimFacts.

Module UrlFacts.

Import Url.

Lemma opt_N_eqb_eq (a b : option N) : opt_N_eqb a b = true -> a = b.
Proof.
  destruct a, b; cbn; try discriminate; try reflexivity.
  intros E. apply N.eqb_eq in E. now subst.
Qed.

Lemma scheme_char_not_removed (c : ascii) :
  is_scheme_char c = true -> is_tab_or_newline c = false.
Proof.
  destruct c as [[] [] [] [] [] [] [] []]; try reflexivity; discriminate.
Qed.

Lemma remove_tab_newline_scheme (p tail : string) :
  all_chars is_scheme_char p = true ->
  remove_tab_newline (p ++ tail) = p ++ remove_tab_newline tail.
Proof.
  induction p as [|c p IH]; cbn [all_chars append remove_tab_newline].
  - reflexivity.
  - intros Hall. apply andb_true_iff in Hall. destruct Hall as [Hc Hall].
    rewrite (scheme_char_not_removed _ Hc), (IH Hall). reflexivity.
Qed.

Lemma scan_scheme_name (p tail : string) :
  all_chars is_scheme_char p = true ->
  scan_scheme (p ++ String ":" tail) = Some (lowercase p).
Proof.
  induction p as [|c p IH]; cbn [all_chars append scan_scheme].
  - reflexivity.
  - intros Hall. apply andb_true_iff in Hall. destruct Hall as [Hc Hall].
    rewrite Hc, (IH Hall). reflexivity.
Qed.

(** A scheme name followed by colons is read as that name, lower-cased. *)
Lemma scheme_of_name (p : string) :
  is_scheme_name p = true ->
  scheme_of_input ((p ++ ":") ++ ":") = Some (lowercase p).
Proof.
  destruct p as [|c p]; [discriminate |].
  intros Hname. unfold is_scheme_name in Hname.
  apply andb_true_iff in Hname. destruct Hname as [Ha Hall].
  unfold scheme_of_input.
  rewrite StringFacts.append_assoc, (remove_tab_newline_scheme _ _ Hall).
  cbn [append remove_tab_newline is_tab_or_newline nat_of_ascii].
  change (remove_tab_newline "::") with "::".
  cbn [append]. rewrite Ha.
  exact (scan_scheme_name (String c p) ":" Hall).
Qed.

(** The [protocol] setter touches the scheme and the port only. *)
Lemma set_protocol_frame (u : URLRecord) (value : string) :
  let u' := set_protocol u value in
  username u' = username u /\ password u' = password u
  /\ host u' = host u /\ path u' = path u
  /\ query u' = query u /\ fragment u' = fragment u
  /\ (port u' = port u
      \/ (port u' = None /\ port u = default_port (scheme u'))).
Proof.
  unfold set_protocol.
  destruct (scheme_of_input (value ++ ":")) as [buffer |];
    [destruct (scheme_change_refused u buffer) |].
  all: cbn; repeat split; auto.
  destruct (opt_N_eqb (port u) (default_port buffer)) eqn:E; auto.
  right. split; [reflexivity | now apply opt_N_eqb_eq].
Qed.

Lemma set_protocol_scheme (u : URLRecord) (p : string) :
  is_scheme_name p = true ->
  scheme_change_refused u (lowercase p) = false ->
  scheme (set_protocol u (p ++ ":")) = lowercase p.
Proof.
  intros Hname Hok. unfold set_protocol.
  now rewrite (scheme_of_name _ Hname), Hok.
Qed.

End UrlFacts.

(** Overrides that the [protocol] setter refuses. *)
Module RefusalFacts.

Import Url.

Lemma set_protocol_refused (u : URLRecord) (p : string) :
  is_scheme_name p = true ->
  scheme_change_refused u (lowercase p) = true ->
  set_protocol u (p ++ ":") = u.
Proof.
  intros Hname Hno. unfold set_protocol.
  now rewrite (UrlFacts.scheme_of_name _ Hname), Hno.
Qed.

Lemma special_no_colon (s : string) :
  is_special s = true -> all_chars not_colon s = true.
Proof.
  unfold is_special, special_port.
  repeat match goal with
         | |- context [String.eqb s ?n] =>
             let E := fresh "E" in
             destruct (String.eqb s n) eqn:E;
             [apply String.eqb_eq in E; subst; reflexivity |]
         end.
  discriminate.
Qed.

Lemma lower_scheme_char (c : ascii) :
  is_scheme_char c = true -> Ascii.eqb (lower c) ":" = false.
Proof.
  destruct c as [[] [] [] [] [] [] [] []]; try reflexivity; discriminate.
Qed.

(** Two texts without a colon that are followed by one in the same text
    are the same. *)
Lemma same_up_to_colon (p : string) :
  all_chars is_scheme_char p = true ->
  forall s rest after,
    all_chars not_colon s = true ->
    s ++ String ":" rest = (lowercase p ++ ":") ++ after ->
    s = lowercase p.
Proof.
  induction p as [| a p IH]; intros Hall s rest after Hs Heq.
  - destruct s as [| c s]; [reflexivity |].
    cbn in Heq. inversion Heq; subst.
    cbn in Hs. discriminate Hs.
  - cbn [all_chars] in Hall. apply andb_true_iff in Hall.
    destruct Hall as [Ha Hall].
    cbn [lowercase map_string append] in Heq |- *.
    destruct s as [| c s].
    + cbn [append] in Heq. inversion Heq as [[Hc Hrest]].
      pose proof (lower_scheme_char _ Ha) as Hl.
      rewrite <- Hc in Hl. discriminate Hl.
    + cbn [append] in Heq. inversion Heq as [[Hc Hrest]].
      cbn [all_chars] in Hs. apply andb_true_iff in Hs.
      f_equal. exact (IH Hall _ _ _ (proj2 Hs) Hrest).
Qed.

Lemma serialize_scheme (u : URLRecord) :
  exists rest, serialize u = scheme u ++ String ":" rest.
Proof. unfold serialize. eexists. reflexivity. Qed.

End RefusalFacts.

Module AsyncFacts.

Lemma or_string_empty (s : string) : or_string s "" = s.
Proof. now destruct s. Qed.

Lemma or_number_zero (n : Z) : or_number n 0 = n.
Proof. unfold or_number. destruct (Z.eqb_spec n 0); congruence. Qed.


Lemma no_signature_in_empty : syntax_signature "" = false.
Proof. reflexivity. Qed.

End AsyncFacts.

(** Unfold an operation down to the calls it makes. *)
Ltac unfold_async :=
  unfold run, exec, readStreams, wait, terminate, createPythonSandbox,
    close_if_possible, bind, try_catch, ret, throw, lift, date_now, await;
  cbn [fst snd app].

(** Case analysis on the outcome of the next call in the goal. *)
Ltac next_call :=
  match goal with
  | |- context [match ?x with pair _ _ => _ end] =>
      lazymatch type of x with
      | prod _ (sum Js.Thrown _) => idtac
      end;
      lazymatch x with
      | pair _ _ => fail
      | _ => idtac
      end;
      let w' := fresh "w" in
      let e := fresh "e" in
      let v := fresh "v" in
      let E := fresh "Ecall" in
      destruct x as [w' [e | v]] eqn:E;
      try match type of v with
          | prod _ _ => destruct v
          end;
      cbn [fst snd app]
  end.

(** Case analysis on the identity test of two sandbox objects. *)
Ltac same_sandbox_cases :=
  match goal with
  | |- context [N.eqb ?a ?b] =>
      let E := fresh "Esame" in
      destruct (N.eqb a b) eqn:E; cbn [negb andb fst snd app]
  end.

(** Case analysis on a test of the code. *)
Ltac if_cases :=
  match goal with
  | |- context [if ?c then _ else _] =>
      let E := fresh "Eif" in
      destruct c eqn:E; cbn [negb andb fst snd app]
  end.

(** Case analysis on an optional value or a piece of file data. *)
Ltac option_cases :=
  match goal with
  | |- context [match ?x with Some _ => _ | None => _ end] => destruct x
  end; cbn [fst snd app].

(** Membership in a trace that is known event by event. *)
Ltac in_trace :=
  cbn [In] in *;
  repeat match goal with
         | Hin : _ \/ _ |- _ => destruct Hin as [Hin | Hin]
         | Hin : False |- _ => destruct Hin
         | Heq : (_, _) = (_, _) |- _ => inversion Heq; subst; clear Heq
         | Heq : inl _ = inl _ |- _ => inversion Heq; subst; clear Heq
         | Heq : inr _ = inr _ |- _ => inversion Heq; subst; clear Heq
         | Heq : inl _ = inr _ |- _ => discriminate Heq
         | Heq : inr _ = inl _ |- _ => discriminate Heq
         end.

Section OperationFacts.

Context {W : Type} (H : Host W).

(** C3. [runCommand] never throws.  For every handle, command, options and
    state of the service it returns a result whose [durationMs] is the time
    elapsed between its start and its end; and when any call of the
    pipeline (starting the process, reading its streams, waiting for its
    exit status) throws, the result has an empty [stdout], the text of the
    thrown value as [stderr] and exit code 127. *)
Theorem runCommand_never_throws (modalSandbox : ModalSandbox)
    (command : string) (options : option RunCommandOptions) (w : W) :
  exists r w' tr,
    run (runCommand H modalSandbox command options) w = (Returned r, (w', tr))
    /\ durationMs r = (now H w' - now H w)%Z
    /\ (forall c e, In (c, inl e) tr ->
        stdout r = "" /\ stderr r = Js.error_text e /\ exitCode r = 127%Z).
Proof.
  unfold runCommand. unfold_async.
  repeat next_call.
  all: do 3 eexists; split; [reflexivity |]; split; [reflexivity |].
  all: intros c e0 Hin; in_trace; auto.
Qed.

(** C8. [exists] never throws.  It returns [true] exactly when the probe
    [test -e path] was started and its exit status, once waited for, is 0;
    whenever a call of the probe throws, it returns [false]. *)
Theorem exists_probe (modalSandbox : ModalSandbox) (path : string) (w : W) :
  exists b w' tr,
    run (exists_ H modalSandbox path) w = (Returned b, (w', tr))
    /\ (b = true <->
        exists p, tr = [ (CExec (sandbox modalSandbox) ["test"; "-e"; path]
                            false, inr (VProcess p));
                         (CWait p, inr (VExit 0)) ])
    /\ (forall c e, In (c, inl e) tr -> b = false).
Proof.
  unfold exists_. unfold_async.
  repeat next_call.
  all: do 3 eexists; split; [reflexivity |]; split;
    [| intros c e0 Hin; in_trace; reflexivity].
  - split; [discriminate | intros [p Hp]; discriminate].
  - split; [discriminate | intros [p Hp]; discriminate].
  - destruct (Z.eqb_spec v0 0) as [-> | Hne].
    + split; [intros _; now exists v | reflexivity].
    + split; [discriminate | intros [p Hp]; inversion Hp; congruence].
Qed.

(** C10. [getInfo] always returns, with runtime [node], timeout 300000 and
    [createdAt] equal to the time at which the record is built, whatever
    the sandbox is; the identifier is that of the handle and the status is
    read off the one call to [poll]. *)
Theorem getInfo_fixed_fields (modalSandbox : ModalSandbox) (w : W) :
  exists r w',
    run (getInfo H modalSandbox) w
    = (Returned {| id := sandboxId modalSandbox;
                   provider := "modal";
                   runtime := node;
                   status := status_of_poll r;
                   createdAt := now H w';
                   timeout := 300000;
                   metadata :=
                     {| modalSandboxId := sandboxId modalSandbox;
                        realModalImplementation := true |} |},
       (w', [(CPoll (sandbox modalSandbox), r)])).
Proof.
  unfold getInfo. unfold_async.
  next_call.
  - now exists (inl e), w0.
  - exists (inr (VPoll v)), w0. destruct v as [code |]; reflexivity.
Qed.


(** C2, on the code.  In a run of [runCode] in which starting the process,
    reading its streams or waiting for its exit status throws, [runCode]
    throws and no call to [terminate] is made at all: the auxiliary sandbox,
    when one was created, is left running. *)
Theorem runCode_failure_skips_teardown (modalSandbox : ModalSandbox)
    (code : string) (rt : option Runtime) (w : W) out w' tr c e :
  run (runCode H modalSandbox code rt) w = (out, (w', tr)) ->
  In (c, inl e) tr ->
  is_process_call c = true ->
  (exists m, out = Threw (Js.JsError m))
  /\ (forall sb r, ~ In (CTerminate sb, r) tr).
Proof.
  unfold runCode, runCode_try.
  destruct (match rt with Some r => r | None => detectRuntime code end);
    unfold_async; repeat first [next_call | same_sandbox_cases | if_cases].
  all: intros Hrun Hin Hc; inversion Hrun; subst; clear Hrun.
  all: in_trace; try discriminate Hc.
  all: split; [| intros sb r Hin'; in_trace].
  all: try (eexists; reflexivity).
  all: match goal with
       | Hx : is_error_including ?x _ = true |- _ =>
           destruct x; [eexists; reflexivity | discriminate Hx]
       end.
Qed.

(** When the process was waited for, the auxiliary sandbox, being another
    object than the one of the handle, is terminated. *)
Lemma runCode_teardown_after_wait (modalSandbox : ModalSandbox)
    (code : string) (rt : option Runtime) (w : W) out w' tr app img aux p r :
  run (runCode H modalSandbox code rt) w = (out, (w', tr)) ->
  In (CCreateSandbox app img, inr (VSandbox aux)) tr ->
  In (CWait p, inr r) tr ->
  aux <> sandbox modalSandbox ->
  exists r', In (CTerminate aux, r') tr.
Proof.
  unfold runCode, runCode_try.
  destruct (match rt with Some r => r | None => detectRuntime code end);
    unfold_async; repeat first [next_call | same_sandbox_cases | if_cases].
  all: intros Hrun Hc Hw Hne; inversion Hrun; subst; clear Hrun.
  all: in_trace.
  all: try (apply N.eqb_eq in Esame; congruence).
  all: eexists; cbn [In]; eauto 10.
Qed.

(** Every process call of a trace that is known event by event comes after
    a file call that threw, found among the first three events. *)
Ltac follow_file_failure :=
  let i := fresh "i" in
  let Hnth := fresh "Hnth" in
  let Hproc := fresh "Hproc" in
  intros i ? ? Hnth Hproc;
  repeat (lazymatch type of Hnth with
          | nth_error (_ :: _) _ = _ => idtac
          end;
          destruct i as [| i]; cbn [nth_error] in Hnth;
          [ inversion Hnth; subst; clear Hnth;
            first [ discriminate Hproc
                  | exists 0%nat; do 2 eexists;
                    split; [lia | split; reflexivity]
                  | exists 1%nat; do 2 eexists;
                    split; [lia | split; reflexivity]
                  | exists 2%nat; do 2 eexists;
                    split; [lia | split; reflexivity] ]
          | ]);
  destruct i; discriminate Hnth.

(** The thrown value of a trace that is known event by event. *)
Ltac first_file_error :=
  let x := fresh "x" in
  let Hx := fresh "Hx" in
  intros x Hx;
  first [ discriminate Hx
        | inversion Hx; subst; clear Hx; do 2 eexists; cbn [In];
          first [ solve [split; [left; reflexivity | split; reflexivity]]
                | solve [split; [right; left; reflexivity
                                | split; reflexivity]]
                | solve [split; [right; right; left; reflexivity
                                | split; reflexivity]] ] ].

(** The event after a failed call of the file API, in a trace that is
    known event by event. *)
Ltac start_after_failure :=
  let i := fresh "i" in
  let Hnth := fresh "Hnth" in
  let Hfile := fresh "Hfile" in
  intros i ? ? Hnth Hfile;
  repeat (lazymatch type of Hnth with
          | nth_error (_ :: _) _ = _ => idtac
          end;
          destruct i as [| i]; cbn [nth_error] in Hnth;
          [ inversion Hnth; subst; clear Hnth;
            first [ discriminate Hfile
                  | eexists; reflexivity ]
          | ]);
  destruct i; discriminate Hnth.

(** The outcome when the fallback failed, event by event. *)
Ltac failed_fallback_throws :=
  let Hin := fresh "Hin" in
  let Hfile := fresh "Hfile" in
  let Hff := fresh "Hff" in
  intros ? ? Hin Hfile Hff;
  in_trace;
  first [ reflexivity
        | discriminate Hfile
        | exfalso; cbn in Hff;
          repeat match goal with
                 | E : negb _ = _ |- _ => rewrite E in Hff
                 end;
          cbn in Hff; discriminate Hff ].

(** The outcome when no step of the fallback failed. *)
Ltac sound_fallback_returns :=
  let Hff := fresh "Hff" in
  intros Hff;
  first [ eexists; reflexivity
        | exfalso; cbn in Hff;
          repeat match goal with
                 | E : negb _ = _ |- _ => rewrite E in Hff
                 end;
          cbn in Hff; discriminate Hff ].

(** C6. In every run of [readFile] and of [writeFile], a process is only
    started after a call of the file API has thrown, and the event right
    after such a call is the start of the fallback process.  When a call
    of the file API threw and the fallback failed too (one of its calls
    threw, or its process exited with another status than 0), the
    operation throws the fixed prefix, the path, and the text of the value
    thrown by the file API, not that of the fallback.  When no step of a
    fallback failed, the operation returns.  Every value the operation
    throws has that form. *)
Theorem fallback_keeps_primary_error (modalSandbox : ModalSandbox)
    (path content : string) (w : W) :
  (forall out w' tr,
     run (readFile H modalSandbox path) w = (out, (w', tr)) ->
     process_calls_follow_file_failure tr
     /\ fallback_starts_after_failure (sandbox modalSandbox) ["cat"; path] tr
     /\ (forall c e,
           In (c, inl e) tr -> is_file_call c = true ->
           fallback_failed tr = true ->
           out = Threw (Js.JsError ("Failed to read file " ++ path ++ ": "
                                    ++ Js.error_text e)))
     /\ (fallback_failed tr = false -> exists text, out = Returned text)
     /\ (forall x, out = Threw x ->
         exists c e,
           In (c, inl e) tr /\ is_file_call c = true
           /\ x = Js.JsError ("Failed to read file " ++ path ++ ": "
                              ++ Js.error_text e)))
  /\ (forall out w' tr,
       run (writeFile H modalSandbox path content) w = (out, (w', tr)) ->
       process_calls_follow_file_failure tr
       /\ fallback_starts_after_failure (sandbox modalSandbox)
            ["sh"; "-c"; write_command path content] tr
       /\ (forall c e,
             In (c, inl e) tr -> is_file_call c = true ->
             fallback_failed tr = true ->
             out = Threw (Js.JsError ("Failed to write file " ++ path ++ ": "
                                      ++ Js.error_text e)))
       /\ (fallback_failed tr = false -> out = Returned tt)
       /\ (forall x, out = Threw x ->
           exists c e,
             In (c, inl e) tr /\ is_file_call c = true
             /\ x = Js.JsError ("Failed to write file " ++ path ++ ": "
                                ++ Js.error_text e))).
Proof.
  split; intros out w' tr.
  - unfold readFile, readFile_primary, readFile_fallback. unfold_async.
    repeat first [next_call | option_cases | if_cases].
    all: intros Hrun; inversion Hrun; subst; clear Hrun.
    all: split; [follow_file_failure |].
    all: split; [start_after_failure |].
    all: split; [failed_fallback_throws |].
    all: split; [sound_fallback_returns | first_file_error].
  - unfold writeFile, writeFile_primary, writeFile_fallback. unfold_async.
    repeat first [next_call | option_cases | if_cases].
    all: intros Hrun; inversion Hrun; subst; clear Hrun.
    all: split; [follow_file_failure |].
    all: split; [start_after_failure |].
    all: split; [failed_fallback_throws |].
    all: split; [| first_file_error].
    all: intros Hff;
      first [ repeat match goal with u : unit |- _ => destruct u end;
              reflexivity
        | exfalso; cbn in Hff;
          repeat match goal with
                 | E : negb _ = _ |- _ => rewrite E in Hff
                 end;
          cbn in Hff; discriminate Hff ].
Qed.
(** X25.  With a tunnel on the port: when no protocol is requested
    (absent or empty), [getUrl] returns the tunnel's address unchanged.
    When a protocol [p] is requested and the address parses to [u],
    [getUrl] returns the serialisation of [u] after the assignment of
    [p + ':'] to its protocol; user name, password, host, path, query and
    fragment are those of [u]; the port is that of [u], or is dropped when
    it is the default port of the resulting scheme; and the scheme is [p],
    lower-cased, whenever [p] is a scheme name and the setter of the
    platform does not refuse the change. *)
Theorem getUrl_protocol_override (modalSandbox : ModalSandbox) (port : N)
    (protocol : option string) (w w1 : W) (tunnels : list (N * string))
    (url : string) :
  sb_tunnels H (sandbox modalSandbox) w = (w1, inr tunnels) ->
  tunnel_at tunnels port = Some url ->
  (protocol = None \/ protocol = Some "" ->
   run (getUrl H modalSandbox port protocol) w
   = (Returned url,
      (w1, [(CTunnels (sandbox modalSandbox), inr (VTunnels tunnels))])))
  /\ (forall p u,
       protocol = Some p -> p <> "" -> url_parse H url = inr u ->
       let u' := Url.set_protocol u (p ++ ":") in
       run (getUrl H modalSandbox port protocol) w
       = (Returned (Url.serialize u'),
          (w1, [(CTunnels (sandbox modalSandbox), inr (VTunnels tunnels))]))
       /\ Url.username u' = Url.username u
       /\ Url.password u' = Url.password u
       /\ Url.host u' = Url.host u
       /\ Url.path u' = Url.path u
       /\ Url.query u' = Url.query u
       /\ Url.fragment u' = Url.fragment u
       /\ (Url.port u' = Url.port u
           \/ (Url.port u' = None
               /\ Url.port u = Url.default_port (Url.scheme u')))
       /\ (Url.is_scheme_name p = true ->
           Url.scheme_change_refused u (Url.lowercase p) = false ->
           Url.scheme u' = Url.lowercase p)).
Proof.
  intros Htun Hat. split.
  - intros Hp. unfold getUrl. unfold_async. rewrite Htun. cbn [fst snd app].
    rewrite Hat. destruct Hp as [-> | ->]; reflexivity.
  - intros p u -> Hne Hparse u'. split.
    + unfold getUrl. unfold_async. rewrite Htun. cbn [fst snd app].
      rewrite Hat. destruct p as [|c p]; [congruence |].
      rewrite Hparse. reflexivity.
    + pose proof (UrlFacts.set_protocol_frame u (p ++ ":")) as Hf.
      cbv zeta in Hf. fold u' in Hf.
      destruct Hf as (H1 & H2 & H3 & H4 & H5 & H6 & H7).
      repeat (split; [assumption |]).
      intros Hname Hok. now apply UrlFacts.set_protocol_scheme.
Qed.

(** C7. The scheme is not rewritten where the setter of the platform
    refuses the change: when the address of the tunnel has a
    special scheme ([https], say) and the requested protocol is a scheme
    name that is not special ([tcp], say), [getUrl] returns the address of
    the tunnel as its parsed form serialises, which starts with its own
    scheme and not with the requested one.  No error is raised. *)
Theorem getUrl_override_refused (modalSandbox : ModalSandbox) (port : N)
    (p : string) (w w1 : W) (tunnels : list (N * string)) (url : string)
    (u : Url.URLRecord) :
  sb_tunnels H (sandbox modalSandbox) w = (w1, inr tunnels) ->
  tunnel_at tunnels port = Some url ->
  url_parse H url = inr u ->
  Url.is_scheme_name p = true ->
  Url.is_special (Url.scheme u) = true ->
  Url.is_special (Url.lowercase p) = false ->
  exists s,
    run (getUrl H modalSandbox port (Some p)) w
    = (Returned s,
       (w1, [(CTunnels (sandbox modalSandbox), inr (VTunnels tunnels))]))
    /\ s = Url.serialize u
    /\ Js.starts_with (Url.scheme u ++ ":") s = true
    /\ Js.starts_with (Url.lowercase p ++ ":") s = false.
Proof.
  intros Htun Hat Hparse Hname Hspecial Hplain.
  assert (Hrefused : Url.scheme_change_refused u (Url.lowercase p) = true).
  { unfold Url.scheme_change_refused. now rewrite Hspecial, Hplain. }
  exists (Url.serialize u). split; [| split; [reflexivity | split]].
  - unfold getUrl. unfold_async. rewrite Htun. cbn [fst snd app].
    rewrite Hat. destruct p as [| c p]; [discriminate Hname |].
    rewrite Hparse.
    pose proof (RefusalFacts.set_protocol_refused _ _ Hname Hrefused)
      as Hset.
    cbv beta iota delta [ret]. now rewrite Hset.
  - destruct (RefusalFacts.serialize_scheme u) as [rest ->].
    apply StringFacts.starts_with_spec. exists rest.
    now rewrite StringFacts.append_assoc.
  - destruct (Js.starts_with (Url.lowercase p ++ ":") (Url.serialize u))
      eqn:Estart; [exfalso | reflexivity].
    apply StringFacts.starts_with_spec in Estart.
    destruct Estart as [after Hafter].
    destruct (RefusalFacts.serialize_scheme u) as [rest Hrest].
    rewrite Hrest in Hafter.
    assert (Hall : Url.all_chars Url.is_scheme_char p = true).
    { destruct p as [| c p]; [discriminate Hname |].
      unfold Url.is_scheme_name in Hname.
      now apply andb_true_iff in Hname. }
    pose proof (RefusalFacts.same_up_to_colon p Hall _ _ _
                  (RefusalFacts.special_no_colon _ Hspecial) Hafter) as Hsame.
    rewrite Hsame in Hspecial. congruence.
Qed.

End OperationFacts.

(** ** The operations on concrete hosts *)

Lemma runCommand_never_throws_witness :
  exists r,
    fst (run (runCommand exec_failure_host a_sandbox "no-such-utility" None)
           0%Z) = Returned r
    /\ stdout r = "" /\ stderr r = "connection reset" /\ exitCode r = 127%Z.
Proof.
  destruct (runCommand_never_throws exec_failure_host a_sandbox
              "no-such-utility" None 0%Z) as (r & w' & tr & Hrun & _ & Hf).
  exists r. rewrite Hrun. split; [reflexivity |].
  vm_compute in Hrun. inversion Hrun; subst; clear Hrun.
  apply (Hf (CExec 1%N ["sh"; "-c"; "no-such-utility"] true)
            (Js.JsError "connection reset")).
  left. reflexivity.
Defined.

Lemma exists_probe_witness :
  fst (run (exists_ (file_host "x") a_sandbox "/tmp/a") 0%Z) = Returned true
  /\ fst (run (exists_ exec_failure_host a_sandbox "/tmp/a") 0%Z)
     = Returned false.
Proof.
  split.
  - destruct (exists_probe (file_host "x") a_sandbox "/tmp/a" 0%Z)
      as (b & w' & tr & Hrun & Hiff & _).
    rewrite Hrun. cbn [fst]. f_equal. apply Hiff.
    vm_compute in Hrun. inversion Hrun; subst. now exists 3%N.
  - destruct (exists_probe exec_failure_host a_sandbox "/tmp/a" 0%Z)
      as (b & w' & tr & Hrun & _ & Hf).
    rewrite Hrun. cbn [fst]. f_equal.
    vm_compute in Hrun. inversion Hrun; subst.
    reflexivity.
Defined.


Lemma runCode_failure_skips_teardown_witness :
  In (CCreateSandbox 1%N 2%N, inr (VSandbox 7%N))
    (snd (snd (run (runCode exec_failure_host a_sandbox "print(1)"
                      (Some python)) 0%Z)))
  /\ fst (run (runCode exec_failure_host a_sandbox "print(1)" (Some python))
            0%Z)
     = Threw (Js.JsError "Modal execution failed: connection reset")
  /\ (forall sb r,
        ~ In (CTerminate sb, r)
            (snd (snd (run (runCode exec_failure_host a_sandbox "print(1)"
                              (Some python)) 0%Z)))).
Proof.
  split; [cbn; tauto | split; [reflexivity |]].
  refine (proj2 (runCode_failure_skips_teardown exec_failure_host a_sandbox
                   "print(1)" (Some python) 0%Z _ _ _
                   (CExec 7%N ["python3"; "-c"; "print(1)"] true)
                   (Js.JsError "connection reset") _ _ _)).
  - reflexivity.
  - cbn. tauto.
  - reflexivity.
Defined.

Lemma fallback_keeps_primary_error_witness :
  fst (run (readFile (no_file_api_host "x" 2) a_sandbox "/a") 0%Z)
  = Threw (Js.JsError "Failed to read file /a: open is not supported")
  /\ fst (run (writeFile (no_file_api_host "x" 2) a_sandbox "/a" "data")
            0%Z)
     = Threw (Js.JsError "Failed to write file /a: open is not supported").
Proof.
  split.
  - destruct (proj1 (fallback_keeps_primary_error (no_file_api_host "x" 2)
                       a_sandbox "/a" "" 0%Z) _ _ _ eq_refl)
      as (_ & _ & Hthrows & _).
    exact (Hthrows (COpen 1%N "/a") (Js.JsValue "open is not supported")
             (or_introl eq_refl) eq_refl eq_refl).
  - destruct (proj2 (fallback_keeps_primary_error (no_file_api_host "x" 2)
                       a_sandbox "/a" "data" 0%Z) _ _ _ eq_refl)
      as (_ & _ & Hthrows & _).
    exact (Hthrows (COpen 1%N "/a") (Js.JsValue "open is not supported")
             (or_introl eq_refl) eq_refl eq_refl).
Defined.


Lemma getUrl_protocol_override_witness :
  run (getUrl tunnel_host a_sandbox 3000 None) 0%Z
  = (Returned "https://cd.modal.host:8443/app?x=1",
     (1%Z, [(CTunnels 1%N,
             inr (VTunnels [ (8080%N, "https://ab.modal.host:80/x");
                             (3000%N, "https://cd.modal.host:8443/app?x=1")
                           ]))]))
  /\ fst (run (getUrl tunnel_host a_sandbox 3000 (Some "WSS")) 0%Z)
     = Returned "wss://cd.modal.host:8443/app?x=1".
Proof.
  split.
  - apply (proj1 (getUrl_protocol_override tunnel_host a_sandbox 3000 None
                    0%Z 1%Z _ _ eq_refl eq_refl)).
    now left.
  - destruct (proj2 (getUrl_protocol_override tunnel_host a_sandbox 3000
                       (Some "WSS") 0%Z 1%Z _ _ eq_refl eq_refl)
                "WSS" _ eq_refl ltac:(discriminate) eq_refl) as [Hrun _].
    rewrite Hrun. reflexivity.
Defined.

Lemma getUrl_override_refused_witness :
  run (getUrl tunnel_host a_sandbox 3000 (Some "tcp")) 0%Z
  = (Returned "https://cd.modal.host:8443/app?x=1",
     (1%Z, [(CTunnels 1%N,
             inr (VTunnels [ (8080%N, "https://ab.modal.host:80/x");
                             (3000%N, "https://cd.modal.host:8443/app?x=1")
                           ]))]))
  /\ Js.starts_with "tcp:" "https://cd.modal.host:8443/app?x=1" = false.
Proof.
  destruct (getUrl_override_refused tunnel_host a_sandbox 3000 "tcp" 0%Z 1%Z
              _ _ _ eq_refl eq_refl eq_refl eq_refl eq_refl eq_refl)
    as (s & Hrun & Hs & _ & Hnot).
  rewrite Hrun. vm_compute in Hs. subst s. split; [reflexivity |].
  exact Hnot.
Defined.

(** An override to a scheme that is not special leaves the address as it
    was. *)
Example override_to_tcp_is_ignored :
  fst (run (getUrl tunnel_host a_sandbox 3000 (Some "tcp")) 0%Z)
  = Returned "https://cd.modal.host:8443/app?x=1".
Proof. reflexivity. Qed.

(** ** The keys of an object *)

Module KeyFacts.

Local Open Scope N_scope.

Lemma in_insert_key (k x : N) (keys : list N) :
  In x (insert_key k keys) <-> x = k \/ In x keys.
Proof.
  induction keys as [| j rest IH]; cbn [insert_key].
  - cbn. intuition.
  - destruct (N.ltb k j) eqn:Elt; [cbn; intuition |].
    destruct (N.eqb k j) eqn:Eeq.
    + apply N.eqb_eq in Eeq. subst. cbn. intuition.
    + cbn [In]. rewrite IH. intuition.
Qed.

Lemma insert_key_sorted (k : N) (keys : list N) :
  StronglySorted N.lt keys -> StronglySorted N.lt (insert_key k keys).
Proof.
  induction keys as [| j rest IH]; cbn [insert_key]; intros Hs.
  - repeat constructor.
  - inversion Hs as [| ? ? Hrest Hall]; subst.
    destruct (N.ltb k j) eqn:Elt.
    + apply N.ltb_lt in Elt. constructor; [assumption |].
      constructor; [assumption |].
      rewrite Forall_forall in *. intros x Hx.
      specialize (Hall x Hx). lia.
    + destruct (N.eqb k j) eqn:Eeq; [assumption |].
      apply N.ltb_ge in Elt. apply N.eqb_neq in Eeq.
      constructor; [now apply IH |].
      rewrite Forall_forall in *. intros x Hx.
      apply in_insert_key in Hx. destruct Hx as [-> | Hx]; [lia | auto].
Qed.

Lemma index_keys_sorted (keys : list N) :
  StronglySorted N.lt (fold_right insert_key [] keys).
Proof.
  induction keys as [| k rest IH]; cbn [fold_right].
  - constructor.
  - now apply insert_key_sorted.
Qed.

Lemma in_index_keys (x : N) (keys : list N) :
  In x (fold_right insert_key [] keys) <-> In x keys.
Proof.
  induction keys as [| k rest IH]; cbn [fold_right].
  - reflexivity.
  - rewrite in_insert_key, IH. cbn. intuition.
Qed.

Lemma filter_all {A} (p : A -> bool) (l : list A) :
  (forall x, In x l -> p x = true) -> filter p l = l.
Proof.
  induction l as [| a l IH]; cbn [filter]; intros Hall; [reflexivity |].
  rewrite (Hall a (or_introl eq_refl)). f_equal.
  apply IH. intros x Hx. apply Hall. now right.
Qed.

Lemma filter_none {A} (p : A -> bool) (l : list A) :
  (forall x, In x l -> p x = true) -> filter (fun x => negb (p x)) l = [].
Proof.
  induction l as [| a l IH]; cbn [filter]; intros Hall; [reflexivity |].
  rewrite (Hall a (or_introl eq_refl)). cbn [negb].
  apply IH. intros x Hx. apply Hall. now right.
Qed.

Lemma object_keys_of_ports (tunnels : list (N * string)) :
  (forall t, In t tunnels -> is_array_index (fst t) = true) ->
  StronglySorted N.lt (object_keys tunnels)
  /\ (forall k, In k (object_keys tunnels) <-> In k (map fst tunnels)).
Proof.
  intros Hall. unfold object_keys. cbv zeta.
  assert (Hkeys : forall k, In k (map fst tunnels) -> is_array_index k = true).
  { intros k Hk. apply in_map_iff in Hk. destruct Hk as (t & <- & Ht).
    now apply Hall. }
  rewrite (filter_all _ _ Hkeys), (filter_none _ _ Hkeys).
  cbn [created_keys]. rewrite app_nil_r. split.
  - apply index_keys_sorted.
  - intros k. apply in_index_keys.
Qed.

End KeyFacts.

(** ** Further properties of the execution engine *)

Section ExecutionFacts.

Context {W : Type} (H : Host W).


(** X2. When the runtime is [python], every process that [runCode] starts
    is [python3 -c code], and it is started in a sandbox that this very run
    created, after the three provisioning calls succeeded. *)
Theorem runCode_python_runs_in_auxiliary (modalSandbox : ModalSandbox)
    (code : string) (rt : option Runtime) (w : W) out w' tr sb argv piped r :
  run (runCode H modalSandbox code rt) w = (out, (w', tr)) ->
  match rt with Some r => r | None => detectRuntime code end = python ->
  In (CExec sb argv piped, r) tr ->
  argv = ["python3"; "-c"; code]
  /\ exists app img,
       tr = (CAppLookup "computesdk-modal", inr (VApp app))
            :: (CImageFromRegistry app "python:3.13-slim", inr (VImage img))
            :: (CCreateSandbox app img, inr (VSandbox sb))
            :: skipn 3 tr.
Proof.
  unfold runCode, runCode_try. intros Hrun Hpy. revert Hrun.
  rewrite Hpy.
  unfold_async; repeat first [next_call | same_sandbox_cases | if_cases].
  all: intros Hrun Hin; inversion Hrun; subst; clear Hrun.
  all: in_trace.
  all: split; [reflexivity | do 2 eexists; reflexivity].
Qed.

(** X3. A process that exits with status 0 always gives a returned result,
    the two streams concatenated, even when [stderr] bears a syntax-error
    signature and whether or not the teardown of the auxiliary sandbox
    throws. *)
Theorem runCode_zero_exit (modalSandbox : ModalSandbox) (code : string)
    (rt : option Runtime) (w : W) out w' tr p p' so se :
  run (runCode H modalSandbox code rt) w = (out, (w', tr)) ->
  In (CReadStreams p, inr (VStreams so se)) tr ->
  In (CWait p', inr (VExit 0)) tr ->
  out = Returned
          {| output := so ++ se;
             code_exitCode := 0;
             language := match rt with
                         | Some r => r
                         | None => detectRuntime code
                         end |}.
Proof.
  unfold runCode, runCode_try.
  destruct (match rt with Some r => r | None => detectRuntime code end);
    unfold_async; repeat first [next_call | same_sandbox_cases | if_cases].
  all: intros Hrun Hs Hw; inversion Hrun; subst; clear Hrun.
  all: in_trace.
  all: try discriminate.
  all: now rewrite !AsyncFacts.or_string_empty.
Qed.

(** X4. When a call other than the teardown throws, [runCode] throws: the
    thrown value itself when it is an [Error] whose message includes
    [Syntax error], whatever its origin, and otherwise an [Error] whose
    message is [Modal execution failed: ] followed by its text. *)
Theorem runCode_thrown_call (modalSandbox : ModalSandbox) (code : string)
    (rt : option Runtime) (w : W) out w' tr c e :
  run (runCode H modalSandbox code rt) w = (out, (w', tr)) ->
  In (c, inl e) tr ->
  is_terminate c = false ->
  out = Threw (if is_error_including e "Syntax error" then e
               else Js.JsError ("Modal execution failed: "
                                ++ Js.error_text e)).
Proof.
  unfold runCode, runCode_try.
  destruct (match rt with Some r => r | None => detectRuntime code end);
    unfold_async; repeat first [next_call | same_sandbox_cases | if_cases].
  all: intros Hrun Hin Hc; inversion Hrun; subst; clear Hrun.
  all: in_trace; try discriminate Hc.
  all: first [reflexivity | congruence].
Qed.

(** X5. When no call throws, [runCommand] made exactly three calls, the
    first of which starts [sh -c] on the composed command in the sandbox of
    the handle, and its result holds the two streams and the exit status as
    they were read: a status other than 0 is returned as it is. *)
Theorem runCommand_success (modalSandbox : ModalSandbox) (command : string)
    (options : option RunCommandOptions) (w : W) out w' tr :
  run (runCommand H modalSandbox command options) w = (out, (w', tr)) ->
  (forall c e, ~ In (c, inl e) tr) ->
  exists p so se n,
    tr = [ (CExec (sandbox modalSandbox)
              ["sh"; "-c"; fullCommand command options] true,
            inr (VProcess p));
           (CReadStreams p, inr (VStreams so se));
           (CWait p, inr (VExit n)) ]
    /\ out = Returned {| stdout := so; stderr := se; exitCode := n;
                         durationMs := (now H w' - now H w)%Z |}.
Proof.
  unfold runCommand. unfold_async. repeat next_call.
  all: intros Hrun Hno; inversion Hrun; subst; clear Hrun.
  all: try (exfalso; eapply Hno; cbn [In]; eauto 8; fail).
  do 4 eexists. split; [reflexivity |].
  now rewrite !AsyncFacts.or_string_empty, AsyncFacts.or_number_zero.
Qed.

(** X6. Whenever [getUrl] throws, the message starts with the fixed prefix
    and the port; when there is no tunnel on the port, it goes on with the
    keys of the tunnel object as [Object.keys] lists them, which for ports
    that are array indices is every port once, in ascending order. *)
Theorem getUrl_failures (modalSandbox : ModalSandbox) (port : N)
    (protocol : option string) (w : W) :
  (forall x st,
     run (getUrl H modalSandbox port protocol) w = (Threw x, st) ->
     exists m,
       x = Js.JsError ("Failed to get Modal tunnel URL for port "
                       ++ Url.decimal port ++ ": " ++ m))
  /\ (forall w1 tunnels,
        sb_tunnels H (sandbox modalSandbox) w = (w1, inr tunnels) ->
        tunnel_at tunnels port = None ->
        fst (run (getUrl H modalSandbox port protocol) w)
        = Threw (Js.JsError
                   ("Failed to get Modal tunnel URL for port "
                    ++ Url.decimal port ++ ": No tunnel found for port "
                    ++ Url.decimal port ++ ". Available ports: "
                    ++ Js.join ", " (map Url.decimal (object_keys tunnels))))
        /\ ((forall t, In t tunnels -> is_array_index (fst t) = true) ->
            StronglySorted N.lt (object_keys tunnels)
            /\ (forall k, In k (object_keys tunnels)
                          <-> In k (map fst tunnels)))).
Proof.
  split.
  - intros x st. unfold getUrl. unfold_async. next_call.
    + intros Hrun. inversion Hrun. eexists. reflexivity.
    + destruct (tunnel_at v port) as [url |].
      * destruct protocol as [[| c p] |]; try discriminate.
        destruct (url_parse H url); cbn; [| discriminate].
        intros Hrun. inversion Hrun. eexists. reflexivity.
      * intros Hrun. inversion Hrun. eexists. reflexivity.
  - intros w1 tunnels Htun Hat. split.
    + unfold getUrl. unfold_async.
      rewrite Htun. cbn [fst snd app]. rewrite Hat. reflexivity.
    + apply KeyFacts.object_keys_of_ports.
Qed.

End ExecutionFacts.

(** ** Further properties of the filesystem *)

(** The outcome of an operation that runs one utility, on a trace that is
    known event by event. *)
Ltac exit_status_cases :=
  repeat match goal with
         | E : negb (Z.eqb ?v 0) = false |- _ =>
             apply negb_false_iff, Z.eqb_eq in E; subst v
         | E : negb (Z.eqb ?v 0) = true |- _ =>
             apply negb_true_iff, Z.eqb_neq in E
         end.

Ltac utility_outcome :=
  exit_status_cases;
  split; [| split; [| split; [| split]]];
  [ do 2 eexists; reflexivity
  | intros Hret; first [discriminate Hret | eexists; cbn [In]; eauto 6]
  | intros [? Hin]; in_trace;
    first [reflexivity | discriminate | congruence]
  | intros ? ? ? ? ? Hs Hw Hn; in_trace;
    first [reflexivity | congruence | discriminate]
  | intros ? ? Hin; in_trace; reflexivity ].

Section FilesystemFacts.

Context {W : Type} (H : Host W).

(** X7. When [open] resolves to nothing, or to an object without a [read]
    method, and no call throws, [readFile] returns the empty string and
    never runs [cat]. *)
Theorem readFile_without_reader (modalSandbox : ModalSandbox) (path : string)
    (w : W) out w' tr sb p fo :
  run (readFile H modalSandbox path) w = (out, (w', tr)) ->
  In (COpen sb p, inr (VFile fo)) tr ->
  match fo with Some f => has_read f = false | None => True end ->
  (forall c e, ~ In (c, inl e) tr) ->
  out = Returned ""
  /\ (forall c r, In (c, r) tr -> is_process_call c = false).
Proof.
  unfold readFile, readFile_primary, readFile_fallback. unfold_async.
  repeat first [next_call | option_cases | if_cases].
  all: intros Hrun Hopen Hfo Hno; inversion Hrun; subst; clear Hrun.
  all: try (exfalso; eapply Hno; cbn [In]; eauto 8; fail).
  all: in_trace; try congruence.
  all: split; [reflexivity | intros c r Hin; in_trace; reflexivity].
Qed.

(** X8. When [open] resolves to nothing, or to an object without a [write]
    method, and no call throws, [writeFile] returns normally although no
    call wrote the content: neither [file.write] nor a process. *)
Theorem writeFile_without_writer (modalSandbox : ModalSandbox)
    (path content : string) (w : W) out w' tr sb p fo :
  run (writeFile H modalSandbox path content) w = (out, (w', tr)) ->
  In (COpen sb p, inr (VFile fo)) tr ->
  match fo with Some f => has_write f = false | None => True end ->
  (forall c e, ~ In (c, inl e) tr) ->
  out = Returned tt
  /\ (forall c r, In (c, r) tr ->
      is_process_call c = false /\ forall f s, c <> CFileWrite f s).
Proof.
  unfold writeFile, writeFile_primary, writeFile_fallback. unfold_async.
  repeat first [next_call | option_cases | if_cases].
  all: intros Hrun Hopen Hfo Hno; inversion Hrun; subst; clear Hrun.
  all: try (exfalso; eapply Hno; cbn [In]; eauto 8; fail).
  all: in_trace; try congruence.
  all: repeat match goal with v : unit |- _ => destruct v end.
  all: split; [reflexivity |].
  all: intros c r Hin; in_trace; split; try reflexivity; discriminate.
Qed.

(** X9. [mkdir] starts [mkdir -p path], the path being one argument of its
    own, in the sandbox of the handle.  It returns exactly when the process
    was waited for and exited with status 0.  A status other than 0 is
    thrown with the path and the text of [stderr]; a call that throws is
    thrown with the path and the text of what it threw. *)
Theorem mkdir_outcome (modalSandbox : ModalSandbox) (path : string) (w : W)
    out w' tr :
  run (mkdir H modalSandbox path) w = (out, (w', tr)) ->
  (exists r rest,
     tr = (CExec (sandbox modalSandbox) ["mkdir"; "-p"; path] true, r)
          :: rest)
  /\ (out = Returned tt -> exists p, In (CWait p, inr (VExit 0)) tr)
  /\ ((exists p, In (CWait p, inr (VExit 0)) tr) -> out = Returned tt)
  /\ (forall p so se p' n,
        In (CReadStreams p, inr (VStreams so se)) tr ->
        In (CWait p', inr (VExit n)) tr -> n <> 0%Z ->
        out = Threw (Js.JsError ("Failed to create directory " ++ path
                                 ++ ": mkdir failed: " ++ se)))
  /\ (forall c e, In (c, inl e) tr ->
        out = Threw (Js.JsError ("Failed to create directory " ++ path
                                 ++ ": " ++ Js.error_text e))).
Proof.
  unfold mkdir. unfold_async. repeat first [next_call | if_cases].
  all: intros Hrun; inversion Hrun; subst; clear Hrun.
  all: utility_outcome.
Qed.

End FilesystemFacts.

(** ** Reading a listing *)

Module ListingFacts.

Import StringFacts.

Lemma split_on_line (sep : ascii) (a : string) :
  Url.all_chars (fun c => negb (Ascii.eqb c sep)) a = true ->
  UrlSubset.split_on sep a = [a].
Proof.
  induction a as [|c a IH]; cbn [Url.all_chars UrlSubset.split_on].
  - reflexivity.
  - intros Hall. apply andb_true_iff in Hall. destruct Hall as [Hc Hall].
    apply negb_true_iff in Hc. rewrite Hc, (IH Hall). reflexivity.
Qed.

Lemma split_on_app (sep : ascii) (a b : string) :
  Url.all_chars (fun c => negb (Ascii.eqb c sep)) a = true ->
  UrlSubset.split_on sep (a ++ String sep b) = a :: UrlSubset.split_on sep b.
Proof.
  induction a as [|c a IH]; cbn [Url.all_chars UrlSubset.split_on append].
  - intros _. now rewrite Ascii.eqb_refl.
  - intros Hall. apply andb_true_iff in Hall. destruct Hall as [Hc Hall].
    apply negb_true_iff in Hc. rewrite Hc, (IH Hall). reflexivity.
Qed.

(** Splitting at line feeds undoes joining lines with line feeds. *)
Lemma split_lines_join (l : string) (ls : list string) :
  forallb is_line (l :: ls) = true ->
  JsText.split_lines (Js.join Js.nl (l :: ls)) = l :: ls.
Proof.
  unfold JsText.split_lines. revert l.
  induction ls as [|l' ls IH]; intros l Hall; cbn [forallb] in Hall;
    apply andb_true_iff in Hall; destruct Hall as [Hl Hall].
  - apply split_on_line. exact Hl.
  - change (Js.join Js.nl (l :: l' :: ls))
      with (l ++ String Js.c_nl (Js.join Js.nl (l' :: ls))).
    rewrite (split_on_app _ _ _ Hl), (IH l' Hall). reflexivity.
Qed.

Lemma split_ws_not_nil (s : string) : JsText.split_ws s <> [].
Proof.
  induction s as [|c s IH]; cbn [JsText.split_ws]; [discriminate |].
  destruct (Js.is_space c).
  - destruct s as [|d s]; [discriminate |].
    destruct (Js.is_space d); [exact IH | discriminate].
  - destruct (JsText.split_ws s); discriminate.
Qed.

Lemma split_ws_token_app (t s : string) :
  Url.all_chars (fun c => negb (Js.is_space c)) t = true ->
  JsText.split_ws (t ++ s)
  = match JsText.split_ws s with
    | h :: r => (t ++ h) :: r
    | [] => [t]
    end.
Proof.
  induction t as [|c t IH]; cbn [Url.all_chars append].
  - intros _. destruct (JsText.split_ws s) eqn:E; [| reflexivity].
    now apply split_ws_not_nil in E.
  - intros Hall. apply andb_true_iff in Hall. destruct Hall as [Hc Hall].
    apply negb_true_iff in Hc. cbn [JsText.split_ws]. rewrite Hc, (IH Hall).
    destruct (JsText.split_ws s); reflexivity.
Qed.

Lemma split_ws_space (a : ascii) (r : string) :
  Js.is_space a = true ->
  JsText.split_ws (String a r)
  = match r with
    | EmptyString => [EmptyString; EmptyString]
    | String d _ =>
        if Js.is_space d then JsText.split_ws r
        else EmptyString :: JsText.split_ws r
    end.
Proof.
  intros Ha.
  change (JsText.split_ws (String a r))
    with (if Js.is_space a then
            match r with
            | EmptyString => [EmptyString; EmptyString]
            | String d _ =>
                if Js.is_space d then JsText.split_ws r
                else EmptyString :: JsText.split_ws r
            end
          else
            match JsText.split_ws r with
            | h :: t => String a h :: t
            | [] => [String a EmptyString]
            end).
  now rewrite Ha.
Qed.

Lemma split_ws_gap_app (g : string) (c : ascii) (s : string) :
  is_gap g = true -> Js.is_space c = false ->
  JsText.split_ws (g ++ String c s) = "" :: JsText.split_ws (String c s).
Proof.
  unfold is_gap. intros Hg Hc. apply andb_true_iff in Hg.
  destruct Hg as [Hne Hall]. destruct g as [|a g]; [discriminate |]. clear Hne.
  revert a Hall. induction g as [|b g IH]; intros a Hall;
    cbn [Url.all_chars] in Hall; apply andb_true_iff in Hall;
    destruct Hall as [Ha Hall].
  - cbn [append]. rewrite (split_ws_space _ _ Ha). now rewrite Hc.
  - pose proof Hall as Hall'. cbn [Url.all_chars] in Hall'.
    apply andb_true_iff in Hall'. destruct Hall' as [Hb _].
    change ((String a (String b g)) ++ String c s)
      with (String a (String b g ++ String c s)).
    rewrite (split_ws_space _ _ Ha).
    cbn [append]. rewrite Hb.
    exact (IH b Hall).
Qed.

Lemma token_head (t : string) :
  is_token t = true ->
  exists c t', t = String c t' /\ Js.is_space c = false
               /\ Url.all_chars (fun c => negb (Js.is_space c)) t = true.
Proof.
  unfold is_token. intros Ht. apply andb_true_iff in Ht.
  destruct Ht as [Hne Hall]. destruct t as [|c t']; [discriminate |].
  exists c, t'. split; [reflexivity | split; [| exact Hall]].
  cbn [Url.all_chars] in Hall. apply andb_true_iff in Hall.
  now apply negb_true_iff.
Qed.

Lemma glue_head (first : string) (rest : list (string * string)) :
  is_token first = true ->
  exists c s, glue first rest = String c s /\ Js.is_space c = false.
Proof.
  intros Ht. destruct (token_head _ Ht) as (c & t' & -> & Hc & _).
  destruct rest as [|[g p] rest]; cbn [glue append]; eauto.
Qed.

(** The pieces of glued tokens are the tokens, whatever the gaps. *)
Lemma split_ws_glue (first : string) (rest : list (string * string)) :
  is_token first = true -> well_formed rest ->
  JsText.split_ws (glue first rest) = first :: map snd rest.
Proof.
  revert first. induction rest as [|[g p] rest IH]; intros first Ht Hwf.
  - destruct (token_head _ Ht) as (_ & _ & _ & _ & Hall).
    cbn [glue map]. rewrite <- (append_empty_r first) at 1.
    rewrite (split_ws_token_app _ _ Hall). cbn [JsText.split_ws].
    now rewrite append_empty_r.
  - inversion Hwf as [| ? ? [Hg Hp] Hwf']; subst. cbn [fst snd] in *.
    destruct (token_head _ Ht) as (_ & _ & _ & _ & Hall).
    destruct (glue_head p rest Hp) as (c & s & Hglue & Hc).
    cbn [glue map snd]. rewrite (split_ws_token_app _ _ Hall), Hglue.
    rewrite (split_ws_gap_app _ _ _ Hg Hc), <- Hglue, (IH p Hp Hwf').
    now rewrite append_empty_r.
Qed.

Lemma trim_start_spaces (lead s : string) :
  Url.all_chars Js.is_space lead = true ->
  Js.trim_start (lead ++ s) = Js.trim_start s.
Proof.
  induction lead as [|c lead IH]; cbn [Url.all_chars append]; [reflexivity |].
  intros Hall. apply andb_true_iff in Hall. destruct Hall as [Hc Hall].
  cbn [Js.trim_start]. rewrite Hc. exact (IH Hall).
Qed.

Lemma trim_end_spaces (trail : string) :
  Url.all_chars Js.is_space trail = true -> Js.trim_end trail = "".
Proof.
  induction trail as [|c trail IH]; cbn [Url.all_chars Js.trim_end];
    [reflexivity |].
  intros Hall. apply andb_true_iff in Hall. destruct Hall as [Hc Hall].
  now rewrite (IH Hall), Hc.
Qed.

Lemma trim_end_app_spaces (s trail : string) :
  Url.all_chars Js.is_space trail = true ->
  Js.trim_end (s ++ trail) = Js.trim_end s.
Proof.
  intros Hall. induction s as [|c s IH]; cbn [append Js.trim_end].
  - now apply trim_end_spaces.
  - now rewrite IH.
Qed.

Lemma trim_end_token (t : string) :
  Url.all_chars (fun c => negb (Js.is_space c)) t = true -> Js.trim_end t = t.
Proof.
  induction t as [|c t IH]; cbn [Url.all_chars Js.trim_end]; [reflexivity |].
  intros Hall. apply andb_true_iff in Hall. destruct Hall as [Hc Hall].
  apply negb_true_iff in Hc. rewrite (IH Hall), Hc. now destruct t.
Qed.

Lemma trim_end_app_kept (a b : string) :
  Js.trim_end b <> "" -> Js.trim_end (a ++ b) = a ++ Js.trim_end b.
Proof.
  intros Hb. induction a as [|c a IH]; cbn [append Js.trim_end];
    [reflexivity |].
  rewrite IH. destruct (a ++ Js.trim_end b) eqn:E; [| reflexivity].
  destruct a; [cbn in E; congruence | discriminate].
Qed.

Lemma trim_end_glue (first : string) (rest : list (string * string)) :
  is_token first = true -> well_formed rest ->
  Js.trim_end (glue first rest) = glue first rest.
Proof.
  revert first. induction rest as [|[g p] rest IH]; intros first Ht Hwf.
  - destruct (token_head _ Ht) as (_ & _ & _ & _ & Hall).
    now apply trim_end_token.
  - inversion Hwf as [| ? ? [Hg Hp] Hwf']; subst. cbn [fst snd] in *.
    cbn [glue].
    assert (Hne : Js.trim_end (glue p rest) <> "").
    { rewrite (IH p Hp Hwf').
      destruct (glue_head p rest Hp) as (c & s & -> & _). discriminate. }
    rewrite trim_end_app_kept; rewrite trim_end_app_kept; try exact Hne.
    + now rewrite (IH p Hp Hwf').
    + intros E. destruct g; [discriminate Hg |].
      destruct (Js.trim_end (glue p rest)); [congruence | discriminate].
Qed.

(** Trimming a padded line of glued tokens gives the glued tokens. *)
Lemma trim_padded (lead trail first : string)
    (rest : list (string * string)) :
  Url.all_chars Js.is_space lead = true ->
  Url.all_chars Js.is_space trail = true ->
  is_token first = true -> well_formed rest ->
  Js.trim (lead ++ glue first rest ++ trail) = glue first rest.
Proof.
  intros Hlead Htrail Ht Hwf. unfold Js.trim.
  rewrite (trim_start_spaces _ _ Hlead).
  destruct (glue_head first rest Ht) as (c & s & Hglue & Hc).
  assert (Hstart : Js.trim_start (glue first rest ++ trail)
                   = glue first rest ++ trail).
  { rewrite Hglue. cbn [append Js.trim_start]. now rewrite Hc. }
  rewrite Hstart, (trim_end_app_spaces _ _ Htrail).
  now apply trim_end_glue.
Qed.

Lemma digits_after (d : Decimal.uint) (p : positive) :
  JsText.digits_prefix 10 true (N.pos p) (NilEmpty.string_of_uint d)
  = Some (N.pos (Pos.of_uint_acc d p)).
Proof.
  revert p.
  induction d; intros p;
    cbn [NilEmpty.string_of_uint JsText.digits_prefix Pos.of_uint_acc];
    try reflexivity.
  all: match goal with
       | |- context [JsText.digit_in 10 ?c] =>
           let v := eval vm_compute in (JsText.digit_in 10 c) in
           change (JsText.digit_in 10 c) with v; cbv beta iota
       end.
  all: match goal with
       | |- JsText.digits_prefix 10 true ?acc _ = Some (N.pos (_ _ ?q)) =>
           replace acc with (N.pos q) by lia
       end.
  all: apply IHd.
Qed.

Lemma digits_from_zero (d : Decimal.uint) :
  JsText.digits_prefix 10 true 0 (NilEmpty.string_of_uint d)
  = Some (Pos.of_uint d).
Proof.
  induction d;
    cbn [NilEmpty.string_of_uint JsText.digits_prefix Pos.of_uint];
    try reflexivity.
  all: match goal with
       | |- context [JsText.digit_in 10 ?c] =>
           let v := eval vm_compute in (JsText.digit_in 10 c) in
           change (JsText.digit_in 10 c) with v; cbv beta iota
       end.
  all: cbn [N.mul N.add].
  all: first [exact IHd | apply digits_after].
Qed.

Lemma parseInt_plain (c : ascii) (r : string) :
  Url.is_digit c = true ->
  match r with
  | String x _ => Ascii.eqb x "x" || Ascii.eqb x "X" = false
  | EmptyString => True
  end ->
  JsText.parseInt (String c r)
  = match JsText.digits_prefix 10 false 0 (String c r) with
    | Some v => Some (Z.of_N v)
    | None => None
    end.
Proof.
  intros Hc Hr.
  destruct c as [[] [] [] [] [] [] [] []]; try discriminate Hc.
  all: try reflexivity.
  destruct r as [|x r]; [reflexivity |].
  unfold JsText.parseInt. cbn [Js.trim_start]. cbv beta iota.
  change (Js.is_space "0") with false. cbv beta iota.
  rewrite Hr. reflexivity.
Qed.

Lemma parseInt_digits (d : Decimal.uint) :
  d <> Decimal.Nil ->
  JsText.parseInt (NilEmpty.string_of_uint d) = Some (Z.of_N (Pos.of_uint d)).
Proof.
  intros Hd.
  assert (Hv : JsText.digits_prefix 10 false 0 (NilEmpty.string_of_uint d)
               = Some (Pos.of_uint d)).
  { rewrite <- digits_from_zero. destruct d; [congruence | ..]; reflexivity. }
  destruct d as [| d | d | d | d | d | d | d | d | d | d]; [congruence | ..];
    cbn [NilEmpty.string_of_uint] in *; rewrite parseInt_plain, Hv;
    try reflexivity.
  all: destruct d; cbn [NilEmpty.string_of_uint]; first [exact I | reflexivity].
Qed.

(** [parseInt] reads back a number printed in decimal. *)
Lemma parseInt_decimal (n : N) :
  JsText.parseInt (Url.decimal n) = Some (Z.of_N n).
Proof.
  unfold Url.decimal.
  assert (Hn : N.to_uint n <> Decimal.Nil).
  { destruct n as [|p]; cbn; [discriminate |].
    intros E. pose proof (DecimalN.Unsigned.of_to (N.pos p)) as Hof.
    cbn in Hof. rewrite E in Hof. discriminate Hof. }
  replace (NilZero.string_of_uint (N.to_uint n))
    with (NilEmpty.string_of_uint (N.to_uint n))
    by (destruct (N.to_uint n); [congruence | ..]; reflexivity).
  rewrite (parseInt_digits _ Hn).
  change (Pos.of_uint (N.to_uint n)) with (N.of_uint (N.to_uint n)).
  now rewrite DecimalN.Unsigned.of_to.
Qed.

Lemma or_string_kept (s d : string) : s <> "" -> or_string s d = s.
Proof. destruct s; [congruence | reflexivity]. Qed.

Lemma join_not_empty (sep h : string) (t : list string) :
  h <> "" -> Js.join sep (h :: t) <> "".
Proof.
  intros Hh. destruct h; [congruence |]. destruct t; discriminate.
Qed.

Lemma in_skipn {A} (x : A) (n : nat) (l : list A) :
  In x (skipn n l) -> In x l.
Proof.
  intros Hin. rewrite <- (firstn_skipn n l). apply in_or_app. now right.
Qed.

Lemma token_not_empty (t : string) : is_token t = true -> t <> "".
Proof. intros Ht ->. discriminate Ht. Qed.

Lemma tokens_of_fields (first : string) (rest : list (string * string)) :
  is_token first = true -> well_formed rest ->
  Forall (fun t => is_token t = true) (first :: map snd rest).
Proof.
  intros Ht Hwf. constructor; [exact Ht |].
  induction Hwf as [| [g p] rest [_ Hp] _ IH]; cbn [map snd]; auto.
Qed.

Lemma split_ws_head (c : ascii) (s : string) :
  Js.is_space c = false ->
  exists h r, JsText.split_ws (String c s) = String c h :: r.
Proof.
  intros Hc. cbn [JsText.split_ws]. rewrite Hc.
  destruct (JsText.split_ws s); eauto.
Qed.

Lemma trim_end_keeps_head (c : ascii) (s : string) :
  Js.is_space c = false -> exists s', Js.trim_end (String c s) = String c s'.
Proof.
  intros Hc. cbn [Js.trim_end]. rewrite Hc.
  destruct (Js.trim_end s); eauto.
Qed.

End ListingFacts.

Section ListingTheorems.

Context {W : Type} (H : Host W).
Variable date_parse : string -> option Z.

(** X10. [remove] starts [rm -rf path] and behaves as [mkdir] does: it
    returns exactly when the process exited with status 0, and throws with
    the path otherwise. *)
Theorem remove_outcome (modalSandbox : ModalSandbox) (path : string) (w : W)
    out w' tr :
  run (remove H modalSandbox path) w = (out, (w', tr)) ->
  (exists r rest,
     tr = (CExec (sandbox modalSandbox) ["rm"; "-rf"; path] true, r) :: rest)
  /\ (out = Returned tt -> exists p, In (CWait p, inr (VExit 0)) tr)
  /\ ((exists p, In (CWait p, inr (VExit 0)) tr) -> out = Returned tt)
  /\ (forall p so se p' n,
        In (CReadStreams p, inr (VStreams so se)) tr ->
        In (CWait p', inr (VExit n)) tr -> n <> 0%Z ->
        out = Threw (Js.JsError ("Failed to remove " ++ path
                                 ++ ": rm failed: " ++ se)))
  /\ (forall c e, In (c, inl e) tr ->
        out = Threw (Js.JsError ("Failed to remove " ++ path
                                 ++ ": " ++ Js.error_text e))).
Proof.
  unfold remove. unfold_async. repeat first [next_call | if_cases].
  all: intros Hrun; inversion Hrun; subst; clear Hrun.
  all: utility_outcome.
Qed.

(** X11. [readdir] starts [ls -la path].  When the process exited with
    status 0 it returns the entries read from [stdout]; a status other than
    0, and a call that throws, are thrown with the path. *)
Theorem readdir_outcome (modalSandbox : ModalSandbox) (path : string) (w : W)
    out w' tr :
  run (readdir H date_parse modalSandbox path) w = (out, (w', tr)) ->
  (exists r rest,
     tr = (CExec (sandbox modalSandbox) ["ls"; "-la"; path] true, r) :: rest)
  /\ (forall p so se p',
        In (CReadStreams p, inr (VStreams so se)) tr ->
        In (CWait p', inr (VExit 0)) tr ->
        out = Returned (parse_listing date_parse (now H w') so))
  /\ (forall p so se p' n,
        In (CReadStreams p, inr (VStreams so se)) tr ->
        In (CWait p', inr (VExit n)) tr -> n <> 0%Z ->
        out = Threw (Js.JsError ("Failed to read directory " ++ path
                                 ++ ": ls failed: " ++ se)))
  /\ (forall c e, In (c, inl e) tr ->
        out = Threw (Js.JsError ("Failed to read directory " ++ path
                                 ++ ": " ++ Js.error_text e))).
Proof.
  unfold readdir. unfold_async. repeat first [next_call | if_cases].
  all: intros Hrun; inversion Hrun; subst; clear Hrun.
  all: exit_status_cases.
  all: split; [| split; [| split]];
    [ do 2 eexists; reflexivity
    | intros ? ? ? ? Hs Hw; in_trace;
      first [reflexivity | congruence | discriminate]
    | intros ? ? ? ? ? Hs Hw Hn; in_trace;
      first [reflexivity | congruence | discriminate]
    | intros ? ? Hin; in_trace; reflexivity ].
Qed.

(** X12. Of an output made of lines, [readdir] drops the first line and the
    lines that are blank, and turns every other line into one entry, in
    order: nothing else is skipped, so the lines for [.] and [..] give
    entries too, and an output of one line gives none. *)
Theorem parse_listing_lines (t : Z) (header : string) (lines : list string) :
  forallb is_line (header :: lines) = true ->
  parse_listing date_parse t (Js.join Js.nl (header :: lines))
  = map (parse_entry date_parse t) (filter kept lines).
Proof.
  intros Hlines. unfold parse_listing.
  now rewrite (ListingFacts.split_lines_join _ _ Hlines).
Qed.

(** X13. A line of at least nine pieces, whatever white space is around
    and between them, gives an entry whose name is the pieces from the
    ninth on joined by single spaces, whose type is [directory] exactly
    when the first piece starts with [d], and whose size is the number that
    the fifth piece prints in decimal. *)
Theorem parse_entry_of_pieces (t : Z) (lead trail first : string)
    (rest : list (string * string)) :
  Url.all_chars Js.is_space lead = true ->
  Url.all_chars Js.is_space trail = true ->
  is_token first = true -> well_formed rest ->
  (8 <= length rest)%nat ->
  let pieces := first :: map snd rest in
  let e := parse_entry date_parse t (lead ++ glue first rest ++ trail) in
  entry_name e = Js.join " " (skipn 8 pieces)
  /\ entry_type e = (if Js.starts_with "d" first then directory else file)
  /\ (forall n, nth_error pieces 4 = Some (Url.decimal n) ->
       (n < 2 ^ 53)%N -> entry_size e = Z.of_N n).
Proof.
  intros Hlead Htrail Ht Hwf Hlen pieces e. unfold e, parse_entry.
  rewrite (ListingFacts.trim_padded _ _ _ _ Hlead Htrail Ht Hwf),
    (ListingFacts.split_ws_glue _ _ Ht Hwf).
  subst pieces. cbn [entry_name entry_type entry_size].
  split; [| split].
  - unfold entry_name_of. apply ListingFacts.or_string_kept.
    pose proof (ListingFacts.tokens_of_fields _ _ Ht Hwf) as Htok.
    destruct (skipn 8 (first :: map snd rest)) as [|h tl] eqn:E.
    + apply (f_equal (@length string)) in E. rewrite length_skipn in E.
      cbn [length] in E. rewrite length_map in E. lia.
    + apply ListingFacts.join_not_empty, ListingFacts.token_not_empty.
      assert (Hin : In h (skipn 8 (first :: map snd rest)))
        by (rewrite E; now left).
      apply ListingFacts.in_skipn in Hin.
      rewrite Forall_forall in Htok. now apply Htok.
  - reflexivity.
  - intros n Hn _. rewrite Hn, ListingFacts.parseInt_decimal.
    apply AsyncFacts.or_number_zero.
Qed.

(** X14. A line of fewer than nine pieces gives an entry named after its
    last piece. *)
Theorem parse_entry_short_line (t : Z) (lead trail first : string)
    (rest : list (string * string)) :
  Url.all_chars Js.is_space lead = true ->
  Url.all_chars Js.is_space trail = true ->
  is_token first = true -> well_formed rest ->
  (length rest < 8)%nat ->
  entry_name (parse_entry date_parse t (lead ++ glue first rest ++ trail))
  = last (first :: map snd rest) "".
Proof.
  intros Hlead Htrail Ht Hwf Hlen. unfold parse_entry.
  rewrite (ListingFacts.trim_padded _ _ _ _ Hlead Htrail Ht Hwf),
    (ListingFacts.split_ws_glue _ _ Ht Hwf).
  cbn [entry_name]. unfold entry_name_of.
  rewrite skipn_all2 by (cbn [length]; rewrite length_map; lia).
  cbn [Js.join or_string]. apply ListingFacts.or_string_kept.
  apply ListingFacts.token_not_empty.
  pose proof (ListingFacts.tokens_of_fields _ _ Ht Hwf) as Htok.
  rewrite Forall_forall in Htok. apply Htok.
  destruct (exists_last (l := first :: map snd rest)) as (l' & a & E);
    [discriminate |].
  rewrite E, last_last. apply in_or_app. right. now left.
Qed.

(** X15. Whatever the line, its entry is a [directory] exactly when the
    first character of the line that is not white space is [d]; every
    other line, that of a symbolic link for one, gives a [file]. *)
Theorem entry_type_by_first_character (t : Z) (line : string) :
  entry_type (parse_entry date_parse t line) = directory
  <-> exists rest, Js.trim_start line = String "d" rest.
Proof.
  unfold parse_entry. cbn [entry_type]. unfold Js.trim.
  destruct (Js.trim_start line) as [|c s] eqn:Estart.
  - cbn. split; [discriminate | intros [rest Hr]; discriminate].
  - pose proof (TrimFacts.trim_start_head _ _ _ Estart) as Hc.
    destruct (ListingFacts.trim_end_keeps_head c s Hc) as [s' ->].
    destruct (ListingFacts.split_ws_head c s' Hc) as (h & r & ->).
    cbn [JsText.at_or_empty nth_error Js.starts_with].
    destruct (Ascii.eqb_spec "d" c) as [<- | Hne].
    + split; [intros _; now exists s | reflexivity].
    + split; [discriminate | intros [rest Hr]; congruence].
Qed.

End ListingTheorems.

(** ** The command of the fallback of [writeFile] *)

Module WriteFacts.

Lemma tame_plain (c : ascii) :
  negb (Ascii.eqb c Js.c_bslash || Ascii.eqb c Js.c_dollar
        || Ascii.eqb c Js.c_btick) = true ->
  Ascii.eqb c Js.c_dq = false -> Sh.escapable c = false.
Proof.
  intros Ht Hq. apply negb_true_iff in Ht.
  apply orb_false_iff in Ht. destruct Ht as [Ht Hb].
  apply orb_false_iff in Ht. destruct Ht as [Hs Hd].
  unfold Sh.escapable. now rewrite Hd, Hb, Hq, Hs.
Qed.

Lemma quoted_tame (content tail : string) :
  is_tame content = true ->
  Sh.sh_dquote
    (replace_char Js.c_dq (String Js.c_bslash Js.dq) content ++ Js.dq ++ tail)
  = Some (content, tail).
Proof.
  unfold is_tame.
  change (String Js.c_bslash Js.dq)
    with (String Js.c_bslash (String Js.c_dq EmptyString)).
  induction content as [|c content IH];
    cbn [Url.all_chars replace_char]; [reflexivity |].
  intros Hall. apply andb_true_iff in Hall. destruct Hall as [Hc Hall].
  destruct (Ascii.eqb c Js.c_dq) eqn:Eq.
  - apply Ascii.eqb_eq in Eq. subst c. cbn [append].
    rewrite ShellFacts.sh_dquote_escaped by reflexivity.
    now rewrite (IH Hall).
  - cbn [append].
    rewrite (ShellFacts.sh_dquote_plain _ _ (tame_plain _ Hc Eq)).
    now rewrite (IH Hall).
Qed.

Lemma quoted_expansion (before after tail : string) (c : ascii) :
  is_tame before = true ->
  c = Js.c_dollar \/ c = Js.c_btick ->
  Sh.sh_dquote
    (replace_char Js.c_dq (String Js.c_bslash Js.dq)
       (before ++ String c after) ++ Js.dq ++ tail)
  = None.
Proof.
  unfold is_tame. intros Hall Hc.
  change (String Js.c_bslash Js.dq)
    with (String Js.c_bslash (String Js.c_dq EmptyString)).
  induction before as [|b before IH];
    cbn [Url.all_chars append replace_char] in *.
  - destruct Hc as [-> | ->]; reflexivity.
  - apply andb_true_iff in Hall. destruct Hall as [Hb Hall].
    destruct (Ascii.eqb b Js.c_dq) eqn:Eq.
    + apply Ascii.eqb_eq in Eq. subst b. cbn [append].
      rewrite ShellFacts.sh_dquote_escaped by reflexivity.
      now rewrite (IH Hall).
    + cbn [append].
      rewrite (ShellFacts.sh_dquote_plain _ _ (tame_plain _ Hb Eq)).
      now rewrite (IH Hall).
Qed.

End WriteFacts.

(** X16. In the command of the fallback of [writeFile], a content without
    backslash, dollar sign and backtick is read back by the shell as it
    is, double quotes included; what follows is the redirection to the
    path. *)
Theorem write_command_keeps_tame_content (path content : string) :
  is_tame content = true ->
  exists body,
    write_command path content = "printf '%s' " ++ Js.dq ++ body
    /\ Sh.sh_dquote body
       = Some (content, " > " ++ Js.dq ++ path ++ Js.dq).
Proof.
  intros Ht. eexists. split; [reflexivity |].
  now apply WriteFacts.quoted_tame.
Qed.

(** X17. In that command the dollar sign and the backtick are not escaped:
    a content in which one of them comes before any backslash is not read
    back as it is, the shell starts an expansion inside the quotes. *)
Theorem write_command_expands (path before after : string) (c : ascii) :
  is_tame before = true ->
  c = Js.c_dollar \/ c = Js.c_btick ->
  exists body,
    write_command path (before ++ String c after)
    = "printf '%s' " ++ Js.dq ++ body
    /\ Sh.sh_dquote body = None.
Proof.
  intros Ht Hc. eexists. split; [reflexivity |].
  now apply WriteFacts.quoted_expansion.
Qed.

(** ** Lifecycle *)

(** Unfold a lifecycle operation down to the calls it makes. *)
Ltac unfold_life :=
  unfold Lifecycle.run, Lifecycle.create_try, Lifecycle.create_catch,
    Lifecycle.raise_or, Lifecycle.bind, Lifecycle.try_catch, Lifecycle.ret,
    Lifecycle.throw, Lifecycle.request;
  cbn [fst snd app].

Module LifecycleFacts.

Import Lifecycle.

Lemma no_credential (configured found : option string) :
  has_credential configured found = false ->
  or_empty (or_else (or_else configured found) (Some "")) = "".
Proof.
  unfold has_credential.
  destruct (or_else configured found) as [[| c s] |]; cbn;
    [reflexivity | discriminate | reflexivity].
Qed.

Lemma a_credential (configured found : option string) :
  has_credential configured found = true ->
  exists c s,
    or_empty (or_else (or_else configured found) (Some "")) = String c s.
Proof.
  unfold has_credential.
  destruct (or_else configured found) as [[| c s] |]; cbn;
    try discriminate. eauto.
Qed.

End LifecycleFacts.

Section LifecycleTheorems.

Import Lifecycle.

Context {W : Type} (S : Sdk W).

(** X18. When the token identifier or the token secret is neither
    configured nor found in the environment, [create] throws the fixed
    message about missing credentials and makes no call at all, whatever
    the options. *)
Theorem create_without_credentials (penv : option ProcessEnv)
    (config : ModalConfig) (options : option CreateSandboxOptions) (w : W) :
  has_credential (tokenId config) (guarded_env penv MODAL_TOKEN_ID) = false
  \/ has_credential (tokenSecret config)
       (guarded_env penv MODAL_TOKEN_SECRET) = false ->
  Lifecycle.run (create S penv config options) w
  = (Threw (Js.JsError missing_credentials), (w, [])).
Proof.
  intros [Hid | Hsecret]; unfold create.
  - now rewrite (LifecycleFacts.no_credential _ _ Hid).
  - rewrite (LifecycleFacts.no_credential _ _ Hsecret).
    now destruct (or_empty _).
Qed.

(** X19. When a call of [create] throws, [create] throws one of three
    messages.  An [Error] whose message includes [unauthorized] or
    [credentials] gives the message about authentication, even when it
    also speaks of a quota; otherwise an [Error] whose message includes
    [quota] or [limit] gives the message about the quota; anything else,
    and every thrown value that is not an [Error], gives
    [Failed to create Modal sandbox: ] followed by its text. *)
Theorem create_failure_classified (penv : option ProcessEnv)
    (config : ModalConfig) (options : option CreateSandboxOptions) (w : W)
    out w' log c e :
  Lifecycle.run (create S penv config options) w = (out, (w', log)) ->
  In (c, Some e) log ->
  let auth := is_error_including e "unauthorized"
              || is_error_including e "credentials" in
  let quota := is_error_including e "quota"
               || is_error_including e "limit" in
  (auth = true -> out = Threw (Js.JsError authentication_failed))
  /\ (auth = false -> quota = true ->
      out = Threw (Js.JsError quota_exceeded))
  /\ (auth = false -> quota = false ->
      out = Threw (Js.JsError ("Failed to create Modal sandbox: "
                               ++ Js.error_text e))).
Proof.
  unfold create.
  destruct (or_empty _) as [| c1 s1]; [intros Hrun Hin | ].
  { inversion Hrun; subst. destruct Hin. }
  destruct (or_empty _) as [| c2 s2]; [intros Hrun Hin | ].
  { inversion Hrun; subst. destruct Hin. }
  unfold_life.
  destruct (match options with Some o => co_sandboxId o | None => None end)
    as [[| ci si] |];
    repeat first [next_call | if_cases].
  all: cbv zeta; intros Hrun Hin; inversion Hrun; subst; clear Hrun.
  all: in_trace.
  all: cbn [orb] in *; repeat split; intros;
    first [reflexivity | congruence | discriminate].
Qed.

(** X20. With credentials and a sandbox identifier in the options,
    [create] reconnects: it calls [initializeClient] and [Sandbox.fromId]
    on that identifier and nothing else, so nothing is provisioned; the
    handle it returns carries the identifier that was asked for. *)
Theorem create_reconnects (penv : option ProcessEnv) (config : ModalConfig)
    (o : CreateSandboxOptions) (id : string) (w : W) out w' log :
  co_sandboxId o = Some id -> id <> "" ->
  Lifecycle.run (create S penv config (Some o)) w = (out, (w', log)) ->
  (forall c r, In (c, r) log ->
     (exists a b, c = LInitializeClient a b) \/ c = LFromId id)
  /\ (forall p, out = Returned p ->
       handle_id p = id /\ sandboxId (handle p) = id
       /\ In (LFromId id, None) log).
Proof.
  intros Hid Hne. unfold create.
  destruct (or_empty _) as [| c1 s1]; [intros Hrun | ].
  { inversion Hrun; subst. split; [intros ? ? [] | discriminate]. }
  destruct (or_empty _) as [| c2 s2]; [intros Hrun | ].
  { inversion Hrun; subst. split; [intros ? ? [] | discriminate]. }
  unfold_life. rewrite Hid. destruct id as [| ci si]; [congruence |].
  repeat first [next_call | if_cases].
  all: intros Hrun; inversion Hrun; subst; clear Hrun.
  all: split;
    [ intros c r Hin; in_trace; eauto
    | intros p Hp; inversion Hp; subst; cbn; auto ].
Qed.

(** X21. Without a sandbox identifier in the options, the sandbox that
    [create] asks for is built from the image of the options, or [node:20]
    when they name none; it exposes the ports of the options when they are
    given, even as an empty list, which exposes nothing, and the ports of
    the configuration only when the options give none; and it carries the
    configured timeout unless that is absent or zero. *)
Theorem create_sandbox_options (penv : option ProcessEnv)
    (config : ModalConfig) (options : option CreateSandboxOptions) (w : W)
    out w' log app img so r :
  Lifecycle.run (create S penv config options) w = (out, (w', log)) ->
  In (LCreateSandbox app img so, r) log ->
  let asked := match options with Some o => co_ports o | None => None end in
  In (LImageFromRegistry app
        match match options with Some o => co_image o | None => None end with
        | Some name => name
        | None => "node:20"
        end, None) log
  /\ (forall ps, asked = Some ps ->
       unencryptedPorts so = match ps with [] => None | _ => Some ps end)
  /\ (asked = None -> unencryptedPorts so = exposed (ports config))
  /\ (forall t, so_timeout so = Some t
                <-> timeout config = Some t /\ t <> 0%Z).
Proof.
  unfold create.
  destruct (or_empty _) as [| c1 s1]; [intros Hrun Hin | ].
  { inversion Hrun; subst. destruct Hin. }
  destruct (or_empty _) as [| c2 s2]; [intros Hrun Hin | ].
  { inversion Hrun; subst. destruct Hin. }
  unfold_life.
  destruct (match options with Some o => co_sandboxId o | None => None end)
    as [[| ci si] |];
    repeat first [next_call | if_cases].
  all: cbv zeta; intros Hrun Hin; inversion Hrun; subst; clear Hrun.
  all: in_trace.
  all: split; [cbn [In]; tauto |].
  all: split; [intros ps ->; now destruct ps |].
  all: split; [intros ->; reflexivity |].
  all: intros t; cbn [so_timeout]; unfold truthy_number;
    destruct (timeout config) as [tv |];
    [destruct (Z.eqb_spec tv 0) as [-> | Hnz] |].
  all: first
    [ split; [discriminate | intros [Ht Hnz]; inversion Ht; congruence]
    | split; [ intros Ht; inversion Ht; subst; now split
             | intros [Ht _]; exact Ht ]
    | split; [discriminate | intros [Ht _]; discriminate] ].
Qed.

(** X22. Where there is a [process], [getById] never throws.  It returns
    a handle exactly when [initializeClient] and [Sandbox.fromId] both went
    through: a returned handle carries the identifier that was asked for
    and the object that [Sandbox.fromId] resolved to, after these two calls
    and no other; when either call throws, [null] is returned; and when
    none throws, a handle is. *)
Theorem getById_outcome (env : ProcessEnv) (config : ModalConfig)
    (id : string) (w : W) :
  exists res w' log,
    Lifecycle.run (getById S (Some env) config id) w
    = (Returned res, (w', log))
    /\ (forall p, res = Some p ->
         handle_id p = id /\ sandboxId (handle p) = id
         /\ exists a b w1,
              log = [ (LInitializeClient a b, None); (LFromId id, None) ]
              /\ initialize_client S a b w = (w1, inr tt)
              /\ from_id S id w1 = (w', inr (sandbox (handle p))))
    /\ (forall c e, In (c, Some e) log -> res = None)
    /\ ((forall c e, ~ In (c, Some e) log) -> exists p, res = Some p).
Proof.
  unfold getById, or_env.
  destruct (tokenId config) as [[| c1 s1] |];
    destruct (tokenSecret config) as [[| c2 s2] |];
    unfold_life; repeat next_call.
  all: repeat match goal with v : unit |- _ => destruct v end.
  all: do 3 eexists; split; [reflexivity |]; split;
    [ intros p Hp; inversion Hp; subst; cbn; eauto 8
    | split;
      [ intros c e0 Hin; in_trace; reflexivity
      | intros Hno;
        first [ eexists; reflexivity
              | exfalso; eapply Hno; cbn [In]; eauto 6 ] ] ].
Qed.

(** X23. Where there is no [process], [getById] throws a
    [ReferenceError], before any call, as soon as one of the two tokens is
    not configured: unlike [create], it reads [process.env] unguarded. *)
Theorem getById_without_process (config : ModalConfig) (id : string) (w : W) :
  has_credential (tokenId config) None = false
  \/ has_credential (tokenSecret config) None = false ->
  Lifecycle.run (getById S None config id) w
  = (Threw (Js.JsError "process is not defined"), (w, [])).
Proof.
  unfold has_credential, or_else, getById, or_env.
  destruct (tokenId config) as [[| c1 s1] |];
    destruct (tokenSecret config) as [[| c2 s2] |];
    intros [Hc | Hc]; try discriminate Hc; reflexivity.
Qed.

(** X24. [destroy] never throws and never calls [initializeClient].  It
    looks the sandbox up; when the lookup resolves to an object with a
    [terminate] method, it terminates that very object and makes no other
    call; when the lookup throws, or resolves to an object without that
    method, the lookup is its only call.  Whatever these calls do, it
    returns, and so does a second [destroy] after it. *)
Theorem destroy_never_throws (config : ModalConfig) (id : string) (w : W) :
  (exists w' log,
     Lifecycle.run (destroy S config id) w = (Returned tt, (w', log))
     /\ (forall w1 sb,
           from_id S id w = (w1, inr sb) -> can_terminate S sb = true ->
           exists r', log = [(LFromId id, None); (LTerminate sb, r')])
     /\ (forall w1 sb,
           from_id S id w = (w1, inr sb) -> can_terminate S sb = false ->
           log = [(LFromId id, None)])
     /\ (forall w1 e,
           from_id S id w = (w1, inl e) -> log = [(LFromId id, Some e)]))
  /\ (exists st,
        Lifecycle.run
          (Lifecycle.bind (destroy S config id)
             (fun _ => destroy S config id)) w
        = (Returned tt, st)).
Proof.
  split.
  - unfold destroy. unfold_life. repeat first [next_call | if_cases].
    all: repeat match goal with v : unit |- _ => destruct v end.
    all: do 2 eexists; split; [reflexivity |].
    all: split; [| split].
    all: intros w1' x Hlookup; try intros Hcan.
    all: inversion Hlookup; subst; try congruence.
    all: try reflexivity; eexists; reflexivity.
  - unfold destroy. unfold_life. repeat first [next_call | if_cases].
    all: repeat match goal with v : unit |- _ => destruct v end.
    all: eexists; reflexivity.
Qed.

End LifecycleTheorems.

(** ** The further properties on concrete hosts *)


Lemma runCode_python_runs_in_auxiliary_witness :
  exists app img,
    snd (snd (run (runCode exit3_host a_sandbox "print(1)" (Some python))
                0%Z))
    = (CAppLookup "computesdk-modal", inr (VApp app))
      :: (CImageFromRegistry app "python:3.13-slim", inr (VImage img))
      :: (CCreateSandbox app img, inr (VSandbox 7%N))
      :: skipn 3
           (snd (snd (run (runCode exit3_host a_sandbox "print(1)"
                             (Some python)) 0%Z))).
Proof.
  refine (proj2 (runCode_python_runs_in_auxiliary exit3_host a_sandbox
                   "print(1)" (Some python) 0%Z _ _ _ 7%N
                   ["python3"; "-c"; "print(1)"] true (inr (VProcess 3%N))
                   eq_refl eq_refl _)).
  cbn. tauto.
Defined.

Lemma runCode_zero_exit_witness :
  fst (run (runCode warning_host a_sandbox "print(1)" (Some python)) 0%Z)
  = Returned {| output := "ok" ++ "SyntaxError: only a warning";
                code_exitCode := 0;
                language := python |}.
Proof.
  refine (runCode_zero_exit warning_host a_sandbox "print(1)" (Some python)
            0%Z _ _ _ 3%N 3%N "ok" "SyntaxError: only a warning"
            eq_refl _ _); cbn; tauto.
Defined.

Lemma runCode_thrown_call_witness :
  fst (run (runCode exec_failure_host a_sandbox "1 + 1" None) 0%Z)
  = Threw (Js.JsError "Modal execution failed: connection reset").
Proof.
  refine (runCode_thrown_call exec_failure_host a_sandbox "1 + 1" None 0%Z
            _ _ _ (CExec 1%N ["node"; "-e"; "1 + 1"] true)
            (Js.JsError "connection reset") eq_refl _ eq_refl).
  cbn. tauto.
Defined.

Lemma runCommand_success_witness :
  exists p so se n,
    snd (snd (run (runCommand exit3_host a_sandbox "false" None) 0%Z))
    = [ (CExec 1%N ["sh"; "-c"; "false"] true, inr (VProcess p));
        (CReadStreams p, inr (VStreams so se));
        (CWait p, inr (VExit n)) ]
    /\ fst (run (runCommand exit3_host a_sandbox "false" None) 0%Z)
       = Returned {| stdout := so; stderr := se; exitCode := n;
                     durationMs := (3 - 0)%Z |}.
Proof.
  refine (runCommand_success exit3_host a_sandbox "false" None 0%Z _ _ _
            eq_refl _).
  intros c e Hin. cbn in Hin.
  repeat (destruct Hin as [Hin | Hin]; [discriminate Hin |]). exact Hin.
Defined.

Lemma getUrl_failures_witness :
  fst (run (getUrl tunnel_host a_sandbox 9999 None) 0%Z)
  = Threw (Js.JsError
             ("Failed to get Modal tunnel URL for port 9999: "
              ++ "No tunnel found for port 9999. "
              ++ "Available ports: 3000, 8080")).
Proof.
  exact (proj1 (proj2 (getUrl_failures tunnel_host a_sandbox 9999 None 0%Z)
                  1%Z _ eq_refl eq_refl)).
Defined.

Lemma readFile_without_reader_witness :
  fst (run (readFile opaque_file_host a_sandbox "/a") 0%Z) = Returned "".
Proof.
  refine (proj1 (readFile_without_reader opaque_file_host a_sandbox "/a" 0%Z
                   _ _ _ 1%N "/a" (Some opaque_file) eq_refl _ eq_refl _)).
  - cbn. tauto.
  - intros c e Hin. cbn in Hin.
    repeat (destruct Hin as [Hin | Hin]; [discriminate Hin |]). exact Hin.
Defined.

Lemma writeFile_without_writer_witness :
  fst (run (writeFile opaque_file_host a_sandbox "/a" "lost") 0%Z)
  = Returned tt.
Proof.
  refine (proj1 (writeFile_without_writer opaque_file_host a_sandbox "/a"
                   "lost" 0%Z _ _ _ 1%N "/a" (Some opaque_file) eq_refl _
                   eq_refl _)).
  - cbn. tauto.
  - intros c e Hin. cbn in Hin.
    repeat (destruct Hin as [Hin | Hin]; [discriminate Hin |]). exact Hin.
Defined.

Lemma mkdir_outcome_witness :
  fst (run (mkdir exit3_host a_sandbox "/a/b") 0%Z)
  = Threw (Js.JsError ("Failed to create directory " ++ "/a/b"
                       ++ ": mkdir failed: " ++ "Traceback: boom")).
Proof.
  refine (proj1 (proj2 (proj2 (proj2
            (mkdir_outcome exit3_host a_sandbox "/a/b" 0%Z _ _ _ eq_refl))))
            3%N "partial" "Traceback: boom" 3%N 3%Z _ _ _);
    [cbn; tauto | cbn; tauto | discriminate].
Defined.

Lemma remove_outcome_witness :
  fst (run (remove exec_failure_host a_sandbox "/a/b") 0%Z)
  = Threw (Js.JsError ("Failed to remove " ++ "/a/b" ++ ": "
                       ++ Js.error_text (Js.JsError "connection reset"))).
Proof.
  refine (proj2 (proj2 (proj2 (proj2
            (remove_outcome exec_failure_host a_sandbox "/a/b" 0%Z _ _ _
               eq_refl))))
            (CExec 1%N ["rm"; "-rf"; "/a/b"] true) _ _).
  cbn. tauto.
Defined.

Lemma readdir_outcome_witness :
  fst (run (readdir listing_host no_date a_sandbox "/d") 0%Z)
  = Returned (parse_listing no_date 3%Z
                (Js.join Js.nl ("total 8" :: listing_lines))).
Proof.
  refine (proj1 (proj2
            (readdir_outcome listing_host no_date a_sandbox "/d" 0%Z _ _ _
               eq_refl))
            3%N _ "" 3%N _ _); cbn; tauto.
Defined.

Lemma parse_listing_lines_witness :
  map entry_name
    (parse_listing no_date 3%Z (Js.join Js.nl ("total 8" :: listing_lines)))
  = ["."; ".."; "notes.txt"].
Proof.
  rewrite (parse_listing_lines no_date 3%Z "total 8" listing_lines eq_refl).
  reflexivity.
Defined.

Lemma parse_entry_of_pieces_witness :
  entry_name
    (parse_entry no_date 3%Z
       ("  " ++ glue "-rw-r--r--" spaced_name_line ++ " "))
  = "my file.txt"
  /\ entry_size
       (parse_entry no_date 3%Z
          ("  " ++ glue "-rw-r--r--" spaced_name_line ++ " "))
     = 12%Z.
Proof.
  assert (Hwf : well_formed spaced_name_line)
    by (repeat constructor).
  destruct (parse_entry_of_pieces no_date 3%Z "  " " " "-rw-r--r--"
              spaced_name_line eq_refl eq_refl eq_refl Hwf
              ltac:(cbn; lia)) as (Hname & _ & Hsize).
  split; [exact Hname |].
  apply (Hsize 12%N); [reflexivity | reflexivity].
Defined.

Lemma parse_entry_short_line_witness :
  entry_name (parse_entry no_date 3%Z ("total" ++ "  " ++ "8")) = "8".
Proof.
  assert (Hwf : well_formed [("  ", "8")]) by (repeat constructor).
  exact (parse_entry_short_line no_date 3%Z "" "" "total" [("  ", "8")]
           eq_refl eq_refl eq_refl Hwf ltac:(cbn; lia)).
Defined.

Lemma entry_type_by_first_character_witness :
  entry_type (parse_entry no_date 3%Z "  drwxr-xr-x 2 root") = directory.
Proof.
  apply (proj2 (entry_type_by_first_character no_date 3%Z
                  "  drwxr-xr-x 2 root")).
  now exists "rwxr-xr-x 2 root".
Defined.

Lemma write_command_keeps_tame_content_witness :
  exists body,
    write_command "/a" ("say " ++ Js.dq ++ "hi" ++ Js.dq)
    = "printf '%s' " ++ Js.dq ++ body
    /\ Sh.sh_dquote body
       = Some ("say " ++ Js.dq ++ "hi" ++ Js.dq,
               " > " ++ Js.dq ++ "/a" ++ Js.dq).
Proof.
  exact (write_command_keeps_tame_content "/a"
           ("say " ++ Js.dq ++ "hi" ++ Js.dq) eq_refl).
Defined.

Lemma write_command_expands_witness :
  exists body,
    write_command "/a" ("cost: " ++ String Js.c_dollar "HOME")
    = "printf '%s' " ++ Js.dq ++ body
    /\ Sh.sh_dquote body = None.
Proof.
  exact (write_command_expands "/a" "cost: " "HOME" Js.c_dollar eq_refl
           (or_introl eq_refl)).
Defined.

Lemma create_without_credentials_witness :
  Lifecycle.run
    (Lifecycle.create friendly_sdk (Some an_env) bare_config
       (Some reconnect_options)) 0%Z
  = (Threw (Js.JsError Lifecycle.missing_credentials), (0%Z, [])).
Proof.
  apply (create_without_credentials friendly_sdk (Some an_env) bare_config
           (Some reconnect_options) 0%Z).
  right. reflexivity.
Defined.

Lemma create_failure_classified_witness :
  fst (Lifecycle.run
         (Lifecycle.create rejecting_sdk None a_config None) 0%Z)
  = Threw (Js.JsError Lifecycle.authentication_failed).
Proof.
  refine (proj1 (create_failure_classified rejecting_sdk None a_config None
                   0%Z _ _ _ _ (Js.JsError "unauthorized: rate limit reached")
                   eq_refl _) eq_refl).
  cbn. do 3 right. left. reflexivity.
Defined.

Lemma create_reconnects_witness :
  Forall (fun e : Lifecycle.LEvent =>
            (exists a b, fst e = Lifecycle.LInitializeClient a b)
            \/ fst e = Lifecycle.LFromId "sb-4")
    (snd (snd (Lifecycle.run
                 (Lifecycle.create friendly_sdk None a_config
                    (Some reconnect_options)) 0%Z))).
Proof.
  apply Forall_forall. intros [c r] Hin.
  exact (proj1 (create_reconnects friendly_sdk None a_config
                  reconnect_options "sb-4" 0%Z _ _ _ eq_refl
                  ltac:(discriminate) eq_refl) c r Hin).
Defined.

Lemma create_sandbox_options_witness :
  In (Lifecycle.LImageFromRegistry 1%N "python:3.13-slim", None)
    (snd (snd (Lifecycle.run
                 (Lifecycle.create friendly_sdk None a_config
                    (Some no_port_options)) 0%Z)))
  /\ Lifecycle.unencryptedPorts
       {| Lifecycle.unencryptedPorts := None; Lifecycle.so_timeout := None |}
     = None.
Proof.
  destruct (create_sandbox_options friendly_sdk None a_config
              (Some no_port_options) 0%Z _ _ _ 1%N 2%N
              {| Lifecycle.unencryptedPorts := None;
                 Lifecycle.so_timeout := None |} None eq_refl)
    as (Himage & Hports & _).
  - cbn. do 3 right. left. reflexivity.
  - split; [exact Himage | exact (Hports [] eq_refl)].
Defined.

Lemma getById_outcome_witness :
  fst (Lifecycle.run
         (Lifecycle.getById rejecting_sdk (Some an_env) bare_config "sb-4")
         0%Z)
  = Returned None
  /\ fst (Lifecycle.run
            (Lifecycle.getById friendly_sdk (Some an_env) bare_config "sb-4")
            0%Z)
     = Returned (Some {| Lifecycle.handle :=
                           {| sandbox := 4%N; sandboxId := "sb-4" |};
                         Lifecycle.handle_id := "sb-4" |}).
Proof.
  split.
  - destruct (getById_outcome rejecting_sdk an_env bare_config "sb-4" 0%Z)
      as (res & w' & log & Hrun & _ & Hnull & _).
    rewrite Hrun. cbn [fst]. f_equal.
    vm_compute in Hrun. inversion Hrun; subst.
    eapply Hnull. right. left. reflexivity.
  - destruct (getById_outcome friendly_sdk an_env bare_config "sb-4" 0%Z)
      as (res & w' & log & Hrun & Hsome & _ & Hall).
    rewrite Hrun. cbn [fst]. f_equal.
    vm_compute in Hrun. inversion Hrun; subst. reflexivity.
Defined.

Lemma getById_without_process_witness :
  Lifecycle.run (Lifecycle.getById friendly_sdk None bare_config "sb-4") 0%Z
  = (Threw (Js.JsError "process is not defined"), (0%Z, [])).
Proof.
  apply (getById_without_process friendly_sdk bare_config "sb-4" 0%Z).
  left. reflexivity.
Defined.

Lemma destroy_never_throws_witness :
  Lifecycle.run (Lifecycle.destroy friendly_sdk a_config "sb-4") 0%Z
  = (Returned tt,
     (2%Z, [ (Lifecycle.LFromId "sb-4", None);
             (Lifecycle.LTerminate 4%N, None) ])).
Proof.
  destruct (proj1 (destroy_never_throws friendly_sdk a_config "sb-4" 0%Z))
    as (w' & log & Hrun & Hterm & _).
  destruct (Hterm 1%Z 4%N eq_refl eq_refl) as [r' Hlog].
  rewrite Hrun. rewrite Hlog in Hrun. vm_compute in Hrun.
  inversion Hrun; subst. reflexivity.
Defined.
